(** * Motion comparison engine: a shallow embedding and its properties

    The development follows [services/comparison_service.py] (class
    [ComparisonService]) and [services/feedback_service.py] (the
    deterministic fallback text of [FeedbackService]).

    Numbers.  Coordinates and timestamps delivered by the pose extractor are
    finite and are modelled as real numbers [R].  Every float the Python code
    computes is a [pyfloat]: a real number or one of the special values the
    code really produces ([np.inf] on the border of the DTW matrix, [nan] from
    [0/0] and from [np.mean] of an empty list).  Rounding error and signed
    zeros are not modelled.

    Exceptions.  Library calls that raise (a shape mismatch in
    [scipy.spatial.distance], [int] of a non-finite float, a missing
    dictionary key) return [Raise]; [try/except] is a [match] on the result. *)

From Stdlib Require Import Reals Lra Lia String Ascii ZArith Bool Arith List.
From Stdlib Require Import DecimalString.
From Stdlib Require Import Permutation Sorted OrdersEx.
Import ListNotations.
Local Open Scope string_scope.
Local Open Scope R_scope.

(** ** Python floats *)

Inductive pyfloat : Type :=
| Fin (r : R)
| PInf
| NInf
| NaN.

Definition Rltb (x y : R) : bool := if Rlt_dec x y then true else false.
Definition Rleb (x y : R) : bool := if Rle_dec x y then true else false.
Definition Reqb (x y : R) : bool := if Req_dec_T x y then true else false.

(** [a < b]; every comparison with [nan] is false. *)
Definition flt (a b : pyfloat) : bool :=
  match a, b with
  | Fin x, Fin y => Rltb x y
  | Fin _, PInf => true
  | NInf, Fin _ => true
  | NInf, PInf => true
  | _, _ => false
  end.

Definition fgt (a b : pyfloat) : bool := flt b a.

(** [a <= b]. *)
Definition fle (a b : pyfloat) : bool :=
  match a, b with
  | Fin x, Fin y => Rleb x y
  | Fin _, PInf => true
  | NInf, Fin _ => true
  | NInf, PInf => true
  | PInf, PInf => true
  | NInf, NInf => true
  | _, _ => false
  end.

Definition fge (a b : pyfloat) : bool := fle b a.

(** [a == b]. *)
Definition feq (a b : pyfloat) : bool :=
  match a, b with
  | Fin x, Fin y => Reqb x y
  | PInf, PInf => true
  | NInf, NInf => true
  | _, _ => false
  end.

Definition fneg (a : pyfloat) : pyfloat :=
  match a with
  | Fin x => Fin (- x)
  | PInf => NInf
  | NInf => PInf
  | NaN => NaN
  end.

Definition fadd (a b : pyfloat) : pyfloat :=
  match a, b with
  | Fin x, Fin y => Fin (x + y)
  | NaN, _ | _, NaN => NaN
  | PInf, NInf | NInf, PInf => NaN
  | PInf, _ | _, PInf => PInf
  | NInf, _ | _, NInf => NInf
  end.

Definition fsub (a b : pyfloat) : pyfloat := fadd a (fneg b).

(** The infinity that a product or quotient with a finite factor [x] and a
    positive infinity yields; [0 * inf] is [nan]. *)
Definition scaled_inf (x : R) : pyfloat :=
  if Rltb 0 x then PInf else if Rltb x 0 then NInf else NaN.

Definition fmul (a b : pyfloat) : pyfloat :=
  match a, b with
  | Fin x, Fin y => Fin (x * y)
  | NaN, _ | _, NaN => NaN
  | Fin x, PInf | PInf, Fin x => scaled_inf x
  | Fin x, NInf | NInf, Fin x => fneg (scaled_inf x)
  | PInf, PInf | NInf, NInf => PInf
  | PInf, NInf | NInf, PInf => NInf
  end.

(** Division of a numpy float: a zero divisor gives an infinity or [nan]
    together with a warning, not an exception. *)
Definition fdiv (a b : pyfloat) : pyfloat :=
  match a, b with
  | Fin x, Fin y => if Reqb y 0 then scaled_inf x else Fin (x / y)
  | NaN, _ | _, NaN => NaN
  | Fin _, _ => Fin 0
  | PInf, Fin y => if Rltb y 0 then NInf else PInf
  | NInf, Fin y => if Rltb y 0 then PInf else NInf
  | _, _ => NaN
  end.

Definition fabs (a : pyfloat) : pyfloat :=
  match a with
  | Fin x => Fin (Rabs x)
  | PInf | NInf => PInf
  | NaN => NaN
  end.

(** The builtins [min(a, b)] and [max(a, b)]: the first argument is kept
    unless the second is strictly smaller (larger). *)
Definition py_min (a b : pyfloat) : pyfloat := if flt b a then b else a.
Definition py_max (a b : pyfloat) : pyfloat := if flt a b then b else a.
Definition py_min3 (a b c : pyfloat) : pyfloat := py_min (py_min a b) c.

(** [np.clip(a, lo, hi)]. *)
Definition np_clip (a : pyfloat) (lo hi : R) : pyfloat :=
  match a with
  | Fin x => Fin (Rmin (Rmax x lo) hi)
  | PInf => Fin hi
  | NInf => Fin lo
  | NaN => NaN
  end.

(** Rounding to the nearest integer, ties to the even one. *)
Definition round_half_even (r : R) : Z :=
  let f := Int_part r in
  let d := r - IZR f in
  if Rltb d (1 / 2) then f
  else if Rltb (1 / 2) d then (f + 1)%Z
  else if Z.even f then f else (f + 1)%Z.

(** [round(a, 1)]. *)
Definition py_round1 (a : pyfloat) : pyfloat :=
  match a with
  | Fin r => Fin (IZR (round_half_even (r * 10)) / 10)
  | _ => a
  end.

(** [np.sum], [np.mean], [np.diff] and [np.abs] on a list of floats.  The
    mean of an empty list is [0 / 0], that is [nan]. *)
Definition np_sum (l : list pyfloat) : pyfloat := fold_right fadd (Fin 0) l.

Definition np_mean (l : list pyfloat) : pyfloat :=
  fdiv (np_sum l) (Fin (INR (length l))).

Fixpoint np_diff (l : list pyfloat) : list pyfloat :=
  match l with
  | a :: (b :: _) as t => fsub b a :: np_diff t
  | _ => []
  end.

Definition np_abs (l : list pyfloat) : list pyfloat := map fabs l.

(** ** Exceptions *)

Inductive exn : Type := ValueError | KeyError | OverflowError.

Inductive res (A : Type) : Type :=
| Ok (a : A)
| Raise (e : exn).
Arguments Ok {A} a.
Arguments Raise {A} e.

Definition bind {A B : Type} (c : res A) (k : A -> res B) : res B :=
  match c with
  | Ok a => k a
  | Raise e => Raise e
  end.

Notation "x <- c ;; k" := (bind c (fun x => k))
  (at level 61, c at next level, right associativity).

Fixpoint mapM {A B : Type} (f : A -> res B) (l : list A) : res (list B) :=
  match l with
  | [] => Ok []
  | x :: t => y <- f x ;; ys <- mapM f t ;; Ok (y :: ys)
  end.

(** [int(a)]: truncation toward zero; [nan] and the infinities raise. *)
Definition py_int (a : pyfloat) : res Z :=
  match a with
  | Fin r => Ok (if Rltb r 0 then (- Int_part (- r))%Z else Int_part r)
  | NaN => Raise ValueError
  | _ => Raise OverflowError
  end.

(** [str(z)] and the format [{z:02d}] of an integer. *)
Definition str_of_Z (z : Z) : string := NilZero.string_of_int (Z.to_int z).

Definition fmt_02d (z : Z) : string :=
  if ((0 <=? z) && (z <? 10))%Z then "0" ++ str_of_Z z else str_of_Z z.

(** ** [scipy.spatial.distance] on feature vectors *)

Definition vector : Type := list R.

Definition dot (u v : vector) : R :=
  fold_right Rplus 0 (map (fun p => fst p * snd p) (combine u v)).

Definition sqdist (u v : vector) : R :=
  fold_right Rplus 0 (map (fun p => (fst p - snd p) ^ 2) (combine u v)).

(** The operands of [u - v] under numpy's broadcasting of one-dimensional
    arrays: equal lengths are taken as they are, a vector of length 1 is
    repeated to the length of the other, and anything else cannot be
    broadcast. *)
Definition broadcast (u v : vector) : option (vector * vector) :=
  if (length u =? length v)%nat then Some (u, v)
  else if (length u =? 1)%nat then Some (repeat (hd 0 u) (length v), v)
  else if (length v =? 1)%nat then Some (u, repeat (hd 0 v) (length u))
  else None.

(** [euclidean(u, v)], the norm of [u - v]; shapes that cannot be broadcast
    raise [ValueError]. *)
Definition euclidean (u v : vector) : res pyfloat :=
  match broadcast u v with
  | Some (u', v') => Ok (Fin (sqrt (sqdist u' v')))
  | None => Raise ValueError
  end.

(** [cosine(u, v)], the cosine distance
    [clip(1 - u.v / sqrt(u.u * v.v), 0, 2)]; a zero vector gives [nan]. *)
Definition cosine (u v : vector) : res pyfloat :=
  if (length u =? length v)%nat then
    Ok (np_clip (fsub (Fin 1)
                   (fdiv (Fin (dot u v)) (Fin (sqrt (dot u u * dot v v)))))
          0 2)
  else Raise ValueError.

(** ** Data model *)

(** One landmark of a frame: [{'x', 'y', 'z', 'visibility'}]. *)
Record Landmark : Type := {
  lm_x : R;
  lm_y : R;
  lm_z : R;
  lm_visibility : R
}.

(** A frame pose is a dictionary from landmark names to landmarks, with the
    joint angles under the extra key ['angles'].  The landmark entries are
    kept as an association list in insertion order. *)
Record Pose : Type := {
  landmarks : list (string * Landmark);
  angles : list (string * option R)
}.

(** The dictionary an extraction returns; a frame without a detected pose is
    [None]. *)
Record PoseData : Type := {
  poses : list (option Pose);
  frame_numbers : list nat;
  timestamps : list R;
  fps : R;
  total_frames : nat;
  duration : R
}.

Record Alignment : Type := {
  distance : pyfloat;
  normalized_distance : pyfloat;
  path : list (nat * nat);
  alignment_quality : pyfloat
}.

Record Similarities : Type := {
  pose_similarity : pyfloat;
  timing_similarity : pyfloat;
  angle_similarity : pyfloat;
  frame_scores : list pyfloat
}.

Record Movement : Type := {
  example_velocities : list pyfloat;
  assignment_velocities : list pyfloat;
  velocity_similarity : pyfloat;
  example_smoothness : pyfloat;
  assignment_smoothness : pyfloat;
  smoothness_score : pyfloat;
  is_too_stiff : bool;
  is_too_fast : bool;
  is_too_slow : bool
}.

Record FeedbackItem : Type := {
  timestamp : string;
  issue : string;
  severity : string;
  suggestion : string
}.

Record Breakdown : Type := {
  pose_accuracy : pyfloat;
  timing_accuracy : pyfloat;
  movement_smoothness : pyfloat;
  angle_accuracy : pyfloat
}.

Record Report : Type := {
  overall_similarity : pyfloat;
  similarity_breakdown : Breakdown;
  feedback_points : list FeedbackItem;
  alignment : Alignment;
  frame_similarities : list pyfloat;
  movement_metrics : Movement
}.

(** What [compare_videos] returns: the two-key error dictionary or the full
    report. *)
Inductive ComparisonResult : Type :=
| ErrorResult (error : string) (overall : Z)
| FullReport (r : Report).

(** ** Feature encoding: [_poses_to_features] *)

(** [pose[key]] and [key in pose] for a landmark name. *)
Fixpoint lookup (key : string) (l : list (string * Landmark)) : option Landmark :=
  match l with
  | [] => None
  | (k, v) :: t => if String.eqb key k then Some v else lookup key t
  end.

(** [sorted(pose.keys())], carried out on the entries: insertion sort by
    name in the lexicographic order of strings. *)
Fixpoint insert_sorted (e : string * Landmark) (l : list (string * Landmark))
  : list (string * Landmark) :=
  match l with
  | [] => [e]
  | h :: t => if String.leb (fst e) (fst h) then e :: l
              else h :: insert_sorted e t
  end.

Definition sorted_items (l : list (string * Landmark)) : list (string * Landmark) :=
  fold_right insert_sorted [] l.

Definition feature_length : nat := 66.

(** The loop body for one present pose: [x], [y] of every landmark in name
    order, the key ['angles'] skipped, padded with zeros and cut at 66. *)
Definition pose_features (p : Pose) : vector :=
  let feature_vector :=
    flat_map (fun e => if String.eqb (fst e) "angles" then []
                       else [lm_x (snd e); lm_y (snd e)])
             (sorted_items (landmarks p)) in
  firstn feature_length
    (feature_vector ++ repeat 0 (feature_length - length feature_vector)).

Definition _poses_to_features (ps : list (option Pose))
    (focus_areas : option (list string)) : list vector :=
  map (fun pose => match pose with
                   | None => repeat 0 feature_length
                   | Some p => pose_features p
                   end) ps.

(** ** Sequence alignment: [_dtw_align] *)

(** [dist_matrix[i, j] = euclidean(example_features[i], assignment_features[j])]. *)
Definition dist_matrix (example_features assignment_features : list vector)
  : res (list (list pyfloat)) :=
  mapM (fun u => mapM (euclidean u) assignment_features) example_features.

(** One row of the cumulative matrix, columns [1..m]: [prev] is the row above
    from column [j-1] on, [left] the cell just written. *)
Fixpoint fill_row (costs : list pyfloat) (prev : list pyfloat) (left : pyfloat)
  : list pyfloat :=
  match costs, prev with
  | cost :: costs', diag :: ((up :: _) as prev') =>
      let v := fadd cost (py_min3 up left diag) in
      v :: fill_row costs' prev' v
  | _, _ => []
  end.

Fixpoint dtw_rows (dist : list (list pyfloat)) (prev : list pyfloat)
  : list (list pyfloat) :=
  match dist with
  | [] => []
  | costs :: dist' =>
      let row := PInf :: fill_row costs prev PInf in
      row :: dtw_rows dist' row
  end.

(** The filled [(n+1) x (m+1)] array [dtw_matrix]. *)
Definition dtw_matrix (m : nat) (dist : list (list pyfloat)) : list (list pyfloat) :=
  let row0 := Fin 0 :: repeat PInf m in
  row0 :: dtw_rows dist row0.

(** [M[i, j]]; the code only reads cells inside the array. *)
Definition cell (M : list (list pyfloat)) (i j : nat) : pyfloat :=
  nth j (nth i M []) NaN.

Inductive move : Type := Up | Left | Diag.

(** [min(candidates, key=lambda x: x[0])] over up, left, diagonal: the first
    candidate of minimal cost wins. *)
Definition choose (M : list (list pyfloat)) (i j : nat) : move :=
  let up := cell M (i - 1) j in
  let left := cell M i (j - 1) in
  let diag := cell M (i - 1) (j - 1) in
  if flt left up then (if flt diag left then Diag else Left)
  else (if flt diag up then Diag else Up).

(** The backtracking loop [while i > 0 and j > 0], in the order the pairs
    are appended. *)
Fixpoint backtrack (M : list (list pyfloat)) (i : nat) : nat -> list (nat * nat) :=
  fix inner (j : nat) : list (nat * nat) :=
    match i, j with
    | S i', S j' =>
        (i', j') :: match choose M i j with
                    | Up => backtrack M i' j
                    | Left => inner j'
                    | Diag => backtrack M i' j'
                    end
    | _, _ => []
    end.

(** The body of the [try]. *)
Definition dtw_try (example_features assignment_features : list vector)
  : res Alignment :=
  let n := length example_features in
  let m := length assignment_features in
  dist <- dist_matrix example_features assignment_features ;;
  let M := dtw_matrix m dist in
  let d := cell M n m in
  let max_len := Nat.max n m in
  let nd := fdiv d (Fin (INR (max_len * 10))) in
  Ok {| distance := d;
        normalized_distance := py_min nd (Fin 1);
        path := rev (backtrack M n m);
        alignment_quality := py_max (Fin 0) (fsub (Fin 1) nd) |}.

(** The [except] branch: [(i, int(i * m / n))] for [i] in [range(n)]. *)
Definition dtw_fallback (example_features assignment_features : list vector)
  : Alignment :=
  let n := length example_features in
  let m := length assignment_features in
  {| distance := Fin 0;
     normalized_distance := Fin 0.5;
     path := map (fun i => (i, (i * m / n)%nat)) (seq 0 n);
     alignment_quality := Fin 0.5 |}.

Definition _dtw_align (example_features assignment_features : list vector)
  : Alignment :=
  match dtw_try example_features assignment_features with
  | Ok a => a
  | Raise _ => dtw_fallback example_features assignment_features
  end.

(** ** Similarity scoring: [_calculate_similarities] *)

Definition frame_score (example_features assignment_features : list vector)
    (p : nat * nat) : res pyfloat :=
  let '(ex_idx, as_idx) := p in
  if ((ex_idx <? length example_features)
      && (as_idx <? length assignment_features))%nat then
    c <- cosine (nth ex_idx example_features []) (nth as_idx assignment_features []) ;;
    Ok (py_max (Fin 0) (fsub (Fin 1) c))
  else Ok (Fin 0).

(** The loop of [_calculate_angle_similarity]: pairs out of range are
    skipped. *)
Fixpoint angle_diffs (example_features assignment_features : list vector)
    (pa : list (nat * nat)) : res (list pyfloat) :=
  match pa with
  | [] => Ok []
  | (ex_idx, as_idx) :: t =>
      if ((ex_idx <? length example_features)
          && (as_idx <? length assignment_features))%nat then
        d <- euclidean (nth ex_idx example_features [])
                       (nth as_idx assignment_features []) ;;
        ds <- angle_diffs example_features assignment_features t ;;
        Ok (d :: ds)
      else angle_diffs example_features assignment_features t
  end.

Definition _calculate_angle_similarity
    (example_features assignment_features : list vector)
    (pa : list (nat * nat)) : res pyfloat :=
  diffs <- angle_diffs example_features assignment_features pa ;;
  match diffs with
  | [] => Ok (Fin 0)
  | _ => Ok (py_max (Fin 0) (fsub (Fin 1) (fdiv (np_mean diffs) (Fin 2))))
  end.

Definition _calculate_similarities
    (example_features assignment_features : list vector) (al : Alignment)
    (example_timestamps assignment_timestamps : list R) : res Similarities :=
  scores <- mapM (frame_score example_features assignment_features) (path al) ;;
  angle <- _calculate_angle_similarity example_features assignment_features (path al) ;;
  Ok {| pose_similarity := np_mean scores;
        timing_similarity := alignment_quality al;
        angle_similarity := angle;
        frame_scores := scores |}.

(** ** Movement analysis: [_analyze_movement_quality] *)

Definition velocity_keys : list string :=
  ["left_wrist"; "right_wrist"; "left_ankle"; "right_ankle"].

(** One round of the loop over the key points: [(displacement, count)]. *)
Definition displacement_step (cur prev : Pose) (acc : R * nat) (key : string)
  : R * nat :=
  match lookup key (landmarks cur), lookup key (landmarks prev) with
  | Some a, Some b =>
      let dx := lm_x a - lm_x b in
      let dy := lm_y a - lm_y b in
      (fst acc + sqrt (dx ^ 2 + dy ^ 2), S (snd acc))
  | _, _ => acc
  end.

(** The velocity appended for the frames [poses[i-1]] and [poses[i]]. *)
Definition frame_velocity (prev cur : option Pose) : pyfloat :=
  match cur, prev with
  | Some c, Some p =>
      let acc := fold_left (displacement_step c p) velocity_keys (0, 0%nat) in
      if (0 <? snd acc)%nat then fdiv (Fin (fst acc)) (Fin (INR (snd acc)))
      else Fin 0
  | _, _ => Fin 0
  end.

Fixpoint _calculate_velocities (ps : list (option Pose)) : list pyfloat :=
  match ps with
  | prev :: ((cur :: _) as rest) => frame_velocity prev cur :: _calculate_velocities rest
  | _ => []
  end.

Definition _calculate_smoothness (ps : list (option Pose)) : pyfloat :=
  let velocities := _calculate_velocities ps in
  if (length velocities <? 2)%nat then Fin 0.5
  else
    let accelerations := np_diff velocities in
    let jerks := np_diff accelerations in
    if (length jerks =? 0)%nat then Fin 0.5
    else
      let avg_jerk := np_mean (np_abs jerks) in
      py_max (Fin 0) (fsub (Fin 1) (fmul avg_jerk (Fin 10))).

Definition _compare_velocities (vel1 vel2 : list pyfloat) : pyfloat :=
  match vel1, vel2 with
  | [], _ | _, [] => Fin 0
  | _, _ =>
      let avg_vel1 := np_mean vel1 in
      let avg_vel2 := np_mean vel2 in
      if feq avg_vel1 (Fin 0) then Fin 0
      else fdiv (py_min avg_vel2 avg_vel1) (py_max avg_vel2 avg_vel1)
  end.

Definition _analyze_movement_quality (example_poses assignment_poses : list (option Pose))
    (al : Alignment) : Movement :=
  let example_velocities := _calculate_velocities example_poses in
  let assignment_velocities := _calculate_velocities assignment_poses in
  let example_smoothness := _calculate_smoothness example_poses in
  let assignment_smoothness := _calculate_smoothness assignment_poses in
  {| example_velocities := example_velocities;
     assignment_velocities := assignment_velocities;
     velocity_similarity := _compare_velocities example_velocities assignment_velocities;
     example_smoothness := example_smoothness;
     assignment_smoothness := assignment_smoothness;
     smoothness_score :=
       fsub (Fin 1) (fabs (fsub example_smoothness assignment_smoothness));
     is_too_stiff := flt assignment_smoothness (Fin 0.5);
     is_too_fast :=
       fgt (np_mean assignment_velocities) (fmul (np_mean example_velocities) (Fin 1.3));
     is_too_slow :=
       flt (np_mean assignment_velocities) (fmul (np_mean example_velocities) (Fin 0.7)) |}.

(** ** Feedback synthesis: [_generate_feedback_points] *)

Record Segment : Type := {
  seg_start : R;
  seg_end : R;
  seg_scores : list pyfloat
}.

(** [_format_time]: [MM:SS] from [seconds // 60] and [seconds % 60]. *)
Definition _format_time (seconds : R) : string :=
  let minutes := Int_part (seconds / 60) in
  let secs := Int_part (seconds - 60 * IZR (Int_part (seconds / 60))) in
  fmt_02d minutes ++ ":" ++ fmt_02d secs.

(** One round of the scan over [enumerate(frame_scores)]; the state is
    [(problem_segments, current_segment)]. *)
Definition scan_step (pa : list (nat * nat)) (example_timestamps : list R)
    (st : list Segment * option Segment) (i : nat) (score : pyfloat)
  : list Segment * option Segment :=
  let '(problem_segments, current_segment) := st in
  if flt score (Fin 0.6) then
    if (i <? length pa)%nat then
      let '(ex_idx, as_idx) := nth i pa (0%nat, 0%nat) in
      let ts := if (ex_idx <? length example_timestamps)%nat
                then nth ex_idx example_timestamps 0 else 0 in
      match current_segment with
      | None =>
          (problem_segments,
           Some {| seg_start := ts; seg_end := ts; seg_scores := [score] |})
      | Some s =>
          (problem_segments,
           Some {| seg_start := seg_start s; seg_end := ts;
                   seg_scores := (seg_scores s ++ [score])%list |})
      end
    else st
  else
    match current_segment with
    | Some s => ((problem_segments ++ [s])%list, None)
    | None => st
    end.

Fixpoint scan (pa : list (nat * nat)) (example_timestamps : list R)
    (st : list Segment * option Segment) (i : nat) (scores : list pyfloat)
  : list Segment * option Segment :=
  match scores with
  | [] => st
  | score :: t =>
      scan pa example_timestamps (scan_step pa example_timestamps st i score) (S i) t
  end.

Definition problem_segments_of (pa : list (nat * nat)) (example_timestamps : list R)
    (scores : list pyfloat) : list Segment :=
  match scan pa example_timestamps ([], None) 0%nat scores with
  | (segs, Some s) => (segs ++ [s])%list
  | (segs, None) => segs
  end.

Definition segment_item (s : Segment) : res FeedbackItem :=
  let avg_score := np_mean (seg_scores s) in
  pct <- py_int (fmul avg_score (Fin 100)) ;;
  Ok {| timestamp := _format_time (seg_start s) ++ " - " ++ _format_time (seg_end s);
        issue := "Pose mismatch";
        severity := if flt avg_score (Fin 0.4) then "high" else "medium";
        suggestion := "Review your positioning during this segment. Pose accuracy: "
                      ++ str_of_Z pct ++ "%" |}.

Definition too_fast_item (pct : Z) : FeedbackItem :=
  {| timestamp := "Overall";
     issue := "Movement speed too fast";
     severity := "medium";
     suggestion := "Slow down your movements by ~" ++ str_of_Z pct
                   ++ "% to match the example tempo" |}.

Definition too_slow_item (pct : Z) : FeedbackItem :=
  {| timestamp := "Overall";
     issue := "Movement speed too slow";
     severity := "medium";
     suggestion := "Speed up your movements by ~" ++ str_of_Z pct
                   ++ "% to match the example tempo" |}.

Definition stiff_item : FeedbackItem :=
  {| timestamp := "Overall";
     issue := "Stiff or jerky movements";
     severity := "medium";
     suggestion := "Try to move more fluidly and smoothly. Focus on smooth transitions between poses." |}.

Definition positive_item : FeedbackItem :=
  {| timestamp := "Overall";
     issue := "None";
     severity := "none";
     suggestion := "Great job! Your choreography closely matches the example." |}.

(** The tempo branch [if is_too_fast ... elif is_too_slow ...]. *)
Definition tempo_items (mv : Movement) : res (list FeedbackItem) :=
  if is_too_fast mv then
    pct <- py_int (fmul (fsub (Fin 1) (velocity_similarity mv)) (Fin 100)) ;;
    Ok [too_fast_item pct]
  else if is_too_slow mv then
    pct <- py_int (fmul (fsub (Fin 1) (velocity_similarity mv)) (Fin 100)) ;;
    Ok [too_slow_item pct]
  else Ok [].

Definition _generate_feedback_points (sims : Similarities) (mv : Movement)
    (example_timestamps assignment_timestamps : list R) (al : Alignment)
  : res (list FeedbackItem) :=
  let problem_segments :=
    problem_segments_of (path al) example_timestamps (frame_scores sims) in
  seg_items <- mapM segment_item problem_segments ;;
  tempo <- tempo_items mv ;;
  let feedback :=
    (seg_items ++ tempo ++ (if is_too_stiff mv then [stiff_item] else []))%list in
  match feedback with
  | [] => Ok [positive_item]
  | _ => Ok feedback
  end.

(** ** Orchestration: [_calculate_overall_score] and [compare_videos] *)

Definition _calculate_overall_score (sims : Similarities) (mv : Movement) : pyfloat :=
  fadd (fadd (fadd (fmul (pose_similarity sims) (Fin 0.40))
                   (fmul (timing_similarity sims) (Fin 0.25)))
             (fmul (angle_similarity sims) (Fin 0.20)))
       (fmul (smoothness_score mv) (Fin 0.15)).

(** [[p for p in poses if p is not None]]; the kept frames stay
    present poses. *)
Definition filter_present (ps : list (option Pose)) : list (option Pose) :=
  filter (fun p => match p with Some _ => true | None => false end) ps.

(** [round(x * 100, 1)]. *)
Definition percent (x : pyfloat) : pyfloat := py_round1 (fmul x (Fin 100)).

Definition compare_videos (example_pose_data assignment_pose_data : PoseData)
    (focus_areas : option (list string)) : res ComparisonResult :=
  let example_poses_clean := filter_present (poses example_pose_data) in
  let assignment_poses_clean := filter_present (poses assignment_pose_data) in
  match example_poses_clean, assignment_poses_clean with
  | [], _ | _, [] =>
      Ok (ErrorResult "Could not detect poses in one or both videos" 0)
  | _, _ =>
      let example_features := _poses_to_features example_poses_clean focus_areas in
      let assignment_features := _poses_to_features assignment_poses_clean focus_areas in
      let al := _dtw_align example_features assignment_features in
      sims <- _calculate_similarities example_features assignment_features al
                (timestamps example_pose_data) (timestamps assignment_pose_data) ;;
      let mv := _analyze_movement_quality example_poses_clean assignment_poses_clean al in
      fb <- _generate_feedback_points sims mv
              (timestamps example_pose_data) (timestamps assignment_pose_data) al ;;
      let overall := _calculate_overall_score sims mv in
      Ok (FullReport
            {| overall_similarity := percent overall;
               similarity_breakdown :=
                 {| pose_accuracy := percent (pose_similarity sims);
                    timing_accuracy := percent (timing_similarity sims);
                    movement_smoothness := percent (smoothness_score mv);
                    angle_accuracy := percent (angle_similarity sims) |};
               feedback_points := fb;
               alignment := al;
               frame_similarities := frame_scores sims;
               movement_metrics := mv |})
  end.

(** ** The deterministic fallback text: [FeedbackService._generate_fallback_feedback] *)

Section FallbackText.

(** Python's [str] of a float, as the f-string [{similarity}] prints it. *)
Variable str_of_float : pyfloat -> string.

Definition newline : string := String (ascii_of_nat 10) EmptyString.

(** The line chosen by the two comparisons [similarity >= 80] and
    [similarity >= 65]. *)
Definition excellent_line : string :=
  "Excellent work! Your choreography closely matches the example."
  ++ newline ++ newline.

Definition good_effort_line : string :=
  "Good effort! You're on the right track with some areas to improve."
  ++ newline ++ newline.

Definition keep_practicing_line : string :=
  "Keep practicing! There are several areas that need attention."
  ++ newline ++ newline.

Definition band_line (similarity : pyfloat) : string :=
  if fge similarity (Fin 80) then excellent_line
  else if fge similarity (Fin 65) then good_effort_line
  else keep_practicing_line.

Definition point_line (point : FeedbackItem) : string :=
  "- [" ++ timestamp point ++ "] " ++ issue point ++ ": "
  ++ suggestion point ++ newline.

(** The loop over [feedback_points], appending to [feedback]. *)
Fixpoint append_points (feedback : string) (points : list FeedbackItem) : string :=
  match points with
  | [] => feedback
  | point :: t =>
      if negb (String.eqb (issue point) "None")
      then append_points (feedback ++ point_line point) t
      else append_points feedback t
  end.

(** The error dictionary has no ['feedback_points'] key. *)
Definition _generate_fallback_feedback (comparison_result : ComparisonResult)
  : res string :=
  match comparison_result with
  | ErrorResult _ _ => Raise KeyError
  | FullReport r =>
      let similarity := overall_similarity r in
      let feedback :=
        "Overall Performance: " ++ str_of_float similarity ++ "%"
        ++ newline ++ newline in
      let feedback := feedback ++ band_line similarity in
      let feedback := feedback ++ "Areas for Improvement:" ++ newline in
      Ok (append_points feedback (feedback_points r))
  end.

End FallbackText.

(** ** Predicates used in the statements *)

(** A finite, non-negative float: what distances, scores and velocities are. *)
Definition fin_nonneg (a : pyfloat) : Prop := exists r, a = Fin r /\ 0 <= r.

Definition is_fin (a : pyfloat) : Prop := exists r, a = Fin r.

(** A cell of the cumulative matrix: infinite on the border, a cost inside. *)
Definition cost_or_inf (a : pyfloat) : Prop := a = PInf \/ fin_nonneg a.

(** The steps of an alignment path: no coordinate decreases, and none grows
    by more than one. *)
Definition unit_steps (l : list (nat * nat)) : Prop :=
  forall k p q, nth_error l k = Some p -> nth_error l (S k) = Some q ->
    (fst p <= fst q <= S (fst p))%nat /\ (snd p <= snd q <= S (snd p))%nat.

(** The same steps read in the order the backtracking appends them. *)
Definition down_steps (l : list (nat * nat)) : Prop :=
  forall k p q, nth_error l k = Some p -> nth_error l (S k) = Some q ->
    (fst q <= fst p <= S (fst q))%nat /\ (snd q <= snd p <= S (snd q))%nat.

(** [round(a / b)] for natural numbers: the nearest integer, ties to even. *)
Definition round_div (a b : nat) : nat :=
  let q := (a / b)%nat in
  let r := (a mod b)%nat in
  if (2 * r <? b)%nat then q
  else if (b <? 2 * r)%nat then S q
  else if Nat.even q then q else S q.

(** The linear alignment as the specification words it: index [i] paired
    with [round(i * m / n)]. *)
Definition spec_linear_path (n m : nat) : list (nat * nat) :=
  map (fun i => (i, round_div (i * m) n)) (seq 0 n).

(** The three bands as the specification words them. *)
Definition spec_band (similarity : pyfloat) : string :=
  if fge similarity (Fin 80) then excellent_line
  else if fge similarity (Fin 65) && flt similarity (Fin 80) then good_effort_line
  else keep_practicing_line.

Definition concat_lines (l : list string) : string := fold_right append "" l.

(** The fallback text as a function of the overall similarity and of the
    feedback items alone. *)
Definition fallback_text (str_of_float : pyfloat -> string) (similarity : pyfloat)
    (points : list FeedbackItem) : string :=
  "Overall Performance: " ++ str_of_float similarity ++ "%" ++ newline ++ newline
  ++ spec_band similarity
  ++ "Areas for Improvement:" ++ newline
  ++ concat_lines
       (map point_line
            (filter (fun point => negb (String.eqb (issue point) "None")) points)).

(** Whether a feedback list holds an item with the given issue. *)
Definition has_issue (s : string) (fb : list FeedbackItem) : bool :=
  existsb (fun item => String.eqb (issue item) s) fb.

(** A score that does not open a problem segment. *)
Definition no_problem (score : pyfloat) : Prop := flt score (Fin 0.6) = false.

(** A sequence without any present frame. *)
Definition all_absent (ps : list (option Pose)) : Prop :=
  forall p, ~ In (Some p) ps.

(** Two example frames of width 2 against three assignment frames of
    width 3: the shapes cannot be broadcast, [euclidean] raises and the
    aligner falls back. *)
Definition fallback_example : list vector := [[0; 0]; [0; 0]].
Definition fallback_assignment : list vector := [[0; 0; 0]; [0; 0; 0]; [0; 0; 0]].

(** Pose data of a video in which no pose was detected. *)
Definition absent_data : PoseData :=
  {| poses := [None; None];
     frame_numbers := [0; 1]%nat;
     timestamps := [0; 1];
     fps := 1;
     total_frames := 2;
     duration := 2 |}.

(** A scorer result and a movement analysis without any finding. *)
Definition clean_similarities : Similarities :=
  {| pose_similarity := Fin 1;
     timing_similarity := Fin 1;
     angle_similarity := Fin 1;
     frame_scores := [Fin 1; Fin 0.6] |}.

Definition clean_movement : Movement :=
  {| example_velocities := [];
     assignment_velocities := [];
     velocity_similarity := Fin 0;
     example_smoothness := Fin 0.5;
     assignment_smoothness := Fin 0.5;
     smoothness_score := Fin 1;
     is_too_stiff := false;
     is_too_fast := false;
     is_too_slow := false |}.

(** A problem segment as the scan builds it: at least one score, all finite. *)
Definition seg_ok (s : Segment) : Prop :=
  seg_scores s <> [] /\ Forall is_fin (seg_scores s).

(** [0.40 p + 0.25 t + 0.20 a + 0.15 s], the weighting of the specification. *)
Definition weighted_sum (p t a s : pyfloat) : pyfloat :=
  fadd (fadd (fadd (fmul (Fin 0.40) p) (fmul (Fin 0.25) t)) (fmul (Fin 0.20) a))
       (fmul (Fin 0.15) s).

(** A feature vector with a component that is not zero. *)
Definition nonzero_vector (u : vector) : Prop := exists x, In x u /\ x <> 0.

(** A one-frame recording with a single tracked landmark. *)
Definition single_pose : Pose :=
  {| landmarks := [("nose", {| lm_x := 1; lm_y := 1; lm_z := 0; lm_visibility := 1 |})];
     angles := [] |}.

Definition single_data : PoseData :=
  {| poses := [Some single_pose];
     frame_numbers := [0%nat];
     timestamps := [0];
     fps := 1;
     total_frames := 1;
     duration := 1 |}.

(** A float in the unit interval. *)
Definition in_unit (a : pyfloat) : Prop := exists r, a = Fin r /\ 0 <= r <= 1.

(** A score that opens or extends a problem segment. *)
Definition low_score (score : pyfloat) : bool := flt score (Fin 0.6).

(** A percentage between 0 and 100. *)
Definition in_percent (a : pyfloat) : Prop := exists r, a = Fin r /\ 0 <= r <= 100.

(** All the scores the scan has put into segments so far, the open segment
    included. *)
Definition collected (st : list Segment * option Segment) : list pyfloat :=
  (concat (map seg_scores (fst st))
   ++ match snd st with Some s => seg_scores s | None => [] end)%list.

(** A segment holds at least one score and only low scores. *)
Definition seg_low (s : Segment) : Prop :=
  seg_scores s <> [] /\ Forall (fun x => low_score x = true) (seg_scores s).

(** ** The feedback service: [generate_enhanced_feedback] *)

Section EnhancedFeedback.

(** Python's [str] of a float. *)
Variable str_of_float : pyfloat -> string.

(** The prompt, an f-string over the similarity, the breakdown and
    [json.dumps] of the feedback points. *)
Variable build_prompt : pyfloat -> Breakdown -> list FeedbackItem -> string.

(** The request to the external text-generation service: its answer, or the
    exception it raises. *)
Variable chat_completion : string -> res string.

(** The three reads of [comparison_result] come before the [try]: the error
    dictionary has no ['similarity_breakdown'] key. *)
Definition generate_enhanced_feedback (comparison_result : ComparisonResult)
  : res string :=
  match comparison_result with
  | ErrorResult _ _ => Raise KeyError
  | FullReport r =>
      let prompt := build_prompt (overall_similarity r) (similarity_breakdown r)
                      (feedback_points r) in
      match chat_completion prompt with
      | Ok content => Ok content
      | Raise _ => _generate_fallback_feedback str_of_float comparison_result
      end
  end.

End EnhancedFeedback.

(** ** The pose extraction service *)

(** [part in landmark_name]: substring test. *)
Fixpoint contains (part s : string) : bool :=
  prefix part s
  || match s with
     | EmptyString => false
     | String _ t => contains part t
     end.

Definition upper_body_parts : list string :=
  ["shoulder"; "elbow"; "wrist"; "eye"; "ear"; "nose"; "mouth"].

Definition lower_body_parts : list string :=
  ["hip"; "knee"; "ankle"; "heel"; "foot"].

Definition arm_parts : list string :=
  ["shoulder"; "elbow"; "wrist"; "pinky"; "index"; "thumb"].

(** The parts tested for one focus area; an unknown area tests nothing. *)
Definition area_parts (area : string) : list string :=
  if String.eqb area "upper_body" then upper_body_parts
  else if String.eqb area "lower_body" then lower_body_parts
  else if String.eqb area "arms" then arm_parts
  else if String.eqb area "legs" then lower_body_parts
  else [].

Definition _is_in_focus (landmark_name : string) (focus_areas : option (list string))
  : bool :=
  match focus_areas with
  | None | Some [] => true
  | Some areas =>
      if existsb (String.eqb "full_body") areas then true
      else existsb (fun area =>
                      existsb (fun part => contains part landmark_name)
                              (area_parts area)) areas
  end.

(** The 33 landmark names, in the order of the detector's output. *)
Definition landmark_names : list string :=
  ["nose"; "left_eye_inner"; "left_eye"; "left_eye_outer";
   "right_eye_inner"; "right_eye"; "right_eye_outer";
   "left_ear"; "right_ear"; "mouth_left"; "mouth_right";
   "left_shoulder"; "right_shoulder"; "left_elbow"; "right_elbow";
   "left_wrist"; "right_wrist"; "left_pinky"; "right_pinky";
   "left_index"; "right_index"; "left_thumb"; "right_thumb";
   "left_hip"; "right_hip"; "left_knee"; "right_knee";
   "left_ankle"; "right_ankle"; "left_heel"; "right_heel";
   "left_foot_index"; "right_foot_index"].

(** [calculate_angle(p1, p2, p3)]: the angle at [p2] in degrees; the three
    points are non-empty dictionaries, so the [None] branch is not taken. *)
Definition calculate_angle (p1 p2 p3 : Landmark) : R :=
  let v1x := lm_x p1 - lm_x p2 in
  let v1y := lm_y p1 - lm_y p2 in
  let v2x := lm_x p3 - lm_x p2 in
  let v2y := lm_y p3 - lm_y p2 in
  let cos_angle :=
    (v1x * v2x + v1y * v2y)
    / (sqrt (v1x * v1x + v1y * v1y) * sqrt (v2x * v2x + v2y * v2y) + 1 / 1000000) in
  let angle := acos (Rmin (Rmax cos_angle (-1)) 1) in
  angle * (180 / PI).

(** The eight joints with the three landmarks each one needs, in the order
    of the eight [if] statements. *)
Definition joint_table : list (string * (string * string * string)) :=
  [("left_elbow", ("left_shoulder", "left_elbow", "left_wrist"));
   ("right_elbow", ("right_shoulder", "right_elbow", "right_wrist"));
   ("left_knee", ("left_hip", "left_knee", "left_ankle"));
   ("right_knee", ("right_hip", "right_knee", "right_ankle"));
   ("left_shoulder", ("left_elbow", "left_shoulder", "left_hip"));
   ("right_shoulder", ("right_elbow", "right_shoulder", "right_hip"));
   ("left_hip", ("left_shoulder", "left_hip", "left_knee"));
   ("right_hip", ("right_shoulder", "right_hip", "right_knee"))].

Definition _calculate_joint_angles (keypoints : list (string * Landmark))
  : list (string * option R) :=
  flat_map
    (fun j =>
       let '(joint, (a, b, c)) := j in
       match lookup a keypoints, lookup b keypoints, lookup c keypoints with
       | Some p1, Some p2, Some p3 => [(joint, Some (calculate_angle p1 p2 p3))]
       | _, _, _ => []
       end)
    joint_table.

(** [focus_areas] is truthy: a non-empty list. *)
Definition focus_given (focus_areas : option (list string)) : bool :=
  match focus_areas with
  | None | Some [] => false
  | Some _ => true
  end.

(** The loop over [enumerate(landmarks.landmark)]: the detected landmarks
    are named by position, those out of focus are skipped. *)
Definition keypoints_of (detected : list Landmark) (focus_areas : option (list string))
  : list (string * Landmark) :=
  flat_map
    (fun e => if focus_given focus_areas && negb (_is_in_focus (fst e) focus_areas)
              then [] else [e])
    (combine landmark_names detected).

Definition _extract_keypoints (detected : list Landmark)
    (focus_areas : option (list string)) : Pose :=
  let keypoints := keypoints_of detected focus_areas in
  {| landmarks := keypoints; angles := _calculate_joint_angles keypoints |}.

(** The frame loop of [extract_poses_from_video] on the frames the capture
    delivers: per frame the detector's landmarks, or [None].  The result is
    [(poses, frame_numbers, timestamps)], or [None] when [frame_idx / fps]
    raises [ZeroDivisionError]. *)
Fixpoint extract_frames (fps : R) (focus_areas : option (list string))
    (frame_idx : nat) (frames : list (option (list Landmark)))
  : option (list (option Pose) * list nat * list R) :=
  match frames with
  | [] => Some ([], [], [])
  | frame :: rest =>
      if Reqb fps 0 then None
      else
        match extract_frames fps focus_areas (S frame_idx) rest with
        | None => None
        | Some (ps, ns, ts) =>
            Some (match frame with
                  | Some detected => Some (_extract_keypoints detected focus_areas)
                  | None => None
                  end :: ps,
                  frame_idx :: ns,
                  INR frame_idx / fps :: ts)
        end
  end.

(** [extract_poses_from_video]: [fps] and [frame_count] are the properties
    the capture reports, [frames] what it delivers. *)
Definition extract_poses_from_video (fps : R) (frame_count : nat)
    (frames : list (option (list Landmark))) (focus_areas : option (list string))
  : option PoseData :=
  match extract_frames fps focus_areas 0 frames with
  | None => None
  | Some (ps, ns, ts) =>
      Some {| poses := ps;
              frame_numbers := ns;
              timestamps := ts;
              fps := fps;
              total_frames := frame_count;
              duration := if Rltb 0 fps then INR frame_count / fps else 0 |}
  end.

(** The strict lexicographic order on the names of two entries. *)
Definition key_lt (e1 e2 : string * Landmark) : Prop :=
  String.compare (fst e1) (fst e2) = Lt.

(** ** The specification's wording of rounding and of the fallback text *)

(** [o] is [x] rounded to one decimal place: a whole number of tenths,
    nearest to [x], the even number of tenths when [x] lies halfway. *)
Definition rounded_to_one_decimal (x o : R) : Prop :=
  exists z : Z,
    o = IZR z / 10 /\ Rabs (o - x) <= 0.05 /\
    (Rabs (o - x) = 0.05 -> Z.even z = true).

(** The line feed. *)
Definition spec_nl : string := String "010"%char EmptyString.

(** A text given by its lines, each ended by a line feed. *)
Definition spec_lines (l : list string) : string :=
  fold_right (fun line rest => line ++ spec_nl ++ rest) "" l.

(** The wording of the three bands: [>= 80], [>= 65] and [< 80], otherwise. *)
Definition spec_band_text (similarity : pyfloat) : string :=
  if fge similarity (Fin 80) then
    "Excellent work! Your choreography closely matches the example."
  else if fge similarity (Fin 65) && flt similarity (Fin 80) then
    "Good effort! You're on the right track with some areas to improve."
  else "Keep practicing! There are several areas that need attention.".

(** The line of one feedback item. *)
Definition spec_item_line (item : FeedbackItem) : string :=
  "- [" ++ timestamp item ++ "] " ++ issue item ++ ": " ++ suggestion item.

(** The fallback text, line by line: the score, an empty line, the band, an
    empty line, the heading, and one line for each feedback item whose issue
    is not ["None"]. *)
Definition spec_fallback_text (str_of_float : pyfloat -> string)
    (similarity : pyfloat) (points : list FeedbackItem) : string :=
  spec_lines
    (List.app
       [("Overall Performance: " ++ str_of_float similarity ++ "%")%string;
        "";
        spec_band_text similarity;
        "";
        "Areas for Improvement:"]
       (map spec_item_line
            (filter (fun item => negb (String.eqb (issue item) "None")) points))).

(** * Properties *)

(** ** Comparisons and arithmetic on [pyfloat] *)

Lemma Rltb_true (x y : R) : Rltb x y = true <-> x < y.
Proof. unfold Rltb. destruct (Rlt_dec x y); split; intros; congruence || assumption. Qed.

Lemma Rltb_false (x y : R) : Rltb x y = false <-> y <= x.
Proof.
  unfold Rltb. destruct (Rlt_dec x y); split; intros; try congruence; lra.
Qed.

Lemma Rleb_true (x y : R) : Rleb x y = true <-> x <= y.
Proof. unfold Rleb. destruct (Rle_dec x y); split; intros; congruence || assumption. Qed.

Lemma Rleb_false (x y : R) : Rleb x y = false <-> y < x.
Proof.
  unfold Rleb. destruct (Rle_dec x y); split; intros; try congruence; lra.
Qed.

Lemma Reqb_true (x y : R) : Reqb x y = true <-> x = y.
Proof. unfold Reqb. destruct (Req_dec_T x y); split; intros; congruence || assumption. Qed.

Lemma Reqb_false (x y : R) : Reqb x y = false <-> x <> y.
Proof. unfold Reqb. destruct (Req_dec_T x y); split; intros; congruence. Qed.

(** Case analysis on the three boolean tests of the reals. *)
Ltac rbool :=
  repeat match goal with
  | |- context [Rltb ?x ?y] =>
      let H := fresh "Hlt" in
      destruct (Rltb x y) eqn:H;
      [apply Rltb_true in H | apply Rltb_false in H]
  | |- context [Rleb ?x ?y] =>
      let H := fresh "Hle" in
      destruct (Rleb x y) eqn:H;
      [apply Rleb_true in H | apply Rleb_false in H]
  | |- context [Reqb ?x ?y] =>
      let H := fresh "Heq" in
      destruct (Reqb x y) eqn:H;
      [apply Reqb_true in H | apply Reqb_false in H]
  end.

Lemma fin_nonneg_is_fin a : fin_nonneg a -> is_fin a.
Proof. intros (r & -> & _). now exists r. Qed.

Lemma py_min_fin_l a b : fin_nonneg a -> cost_or_inf b -> fin_nonneg (py_min a b).
Proof.
  intros (x & -> & Hx) [-> | (y & -> & Hy)]; unfold py_min; simpl.
  - exists x; auto.
  - rbool; [exists y | exists x]; auto.
Qed.

Lemma py_min_fin_r a b : cost_or_inf a -> fin_nonneg b -> fin_nonneg (py_min a b).
Proof.
  intros [-> | (x & -> & Hx)] (y & -> & Hy); unfold py_min; simpl.
  - exists y; auto.
  - rbool; [exists y | exists x]; auto.
Qed.

Lemma py_min_cost a b : cost_or_inf a -> cost_or_inf b -> cost_or_inf (py_min a b).
Proof.
  intros Ha [-> | Hb].
  - destruct Ha as [-> | (x & -> & Hx)]; unfold py_min; simpl; [now left | right; exists x; auto].
  - right. now apply py_min_fin_r.
Qed.

Lemma fadd_fin_nonneg a b : fin_nonneg a -> fin_nonneg b -> fin_nonneg (fadd a b).
Proof. intros (x & -> & Hx) (y & -> & Hy). exists (x + y). split; [reflexivity | lra]. Qed.

Lemma flt_PInf_l b : flt PInf b = false.
Proof. now destruct b. Qed.

Lemma flt_NaN_l b : flt NaN b = false.
Proof. now destruct b. Qed.

Lemma flt_NaN_r a : flt a NaN = false.
Proof. now destruct a. Qed.

(** A sum of two costs is zero only when both are. *)
Lemma fadd_zero a b :
  fin_nonneg a -> fin_nonneg b -> fadd a b = Fin 0 -> a = Fin 0 /\ b = Fin 0.
Proof.
  intros (x & -> & Hx) (y & -> & Hy) H. simpl in H. injection H as H.
  split; f_equal; lra.
Qed.

(** ** The error monad *)

Lemma bind_ok {A B} (c : res A) (k : A -> res B) (b : B) :
  bind c k = Ok b -> exists a, c = Ok a /\ k a = Ok b.
Proof. destruct c; simpl; intros H; [eauto | discriminate]. Qed.

Lemma mapM_length {A B} (f : A -> res B) (l : list A) (ys : list B) :
  mapM f l = Ok ys -> length ys = length l.
Proof.
  revert ys. induction l as [| x t IH]; simpl; intros ys H.
  - injection H as <-. reflexivity.
  - apply bind_ok in H as (y & _ & H). apply bind_ok in H as (ys' & Ht & H).
    injection H as <-. simpl. f_equal. now apply IH.
Qed.

Lemma mapM_nth_error {A B} (f : A -> res B) (l : list A) (ys : list B) :
  mapM f l = Ok ys ->
  forall i x, nth_error l i = Some x ->
  exists y, nth_error ys i = Some y /\ f x = Ok y.
Proof.
  revert ys. induction l as [| a t IH]; simpl; intros ys H i x Hi.
  - destruct i; discriminate.
  - apply bind_ok in H as (y & Hy & H). apply bind_ok in H as (ys' & Ht & H).
    injection H as <-. destruct i as [| i]; simpl in *.
    + injection Hi as <-. eauto.
    + eapply IH; eauto.
Qed.

Lemma mapM_total {A B} (f : A -> res B) (l : list A) :
  (forall x, In x l -> exists y, f x = Ok y) -> exists ys, mapM f l = Ok ys.
Proof.
  induction l as [| a t IH]; simpl; intros H.
  - eauto.
  - destruct (H a) as (y & Hy); [now left |].
    destruct IH as (ys & Hys); [intros; apply H; now right |].
    exists (y :: ys). rewrite Hy. simpl. rewrite Hys. reflexivity.
Qed.

Lemma mapM_forall {A B} (P : B -> Prop) (f : A -> res B) (l : list A) (ys : list B) :
  (forall x y, In x l -> f x = Ok y -> P y) ->
  mapM f l = Ok ys -> Forall P ys.
Proof.
  revert ys. induction l as [| a t IH]; simpl; intros ys HP H.
  - injection H as <-. constructor.
  - apply bind_ok in H as (y & Hy & H). apply bind_ok in H as (ys' & Ht & H).
    injection H as <-. constructor; eauto.
Qed.

(** ** The cumulative matrix *)

Lemma fill_row_length costs : forall prev left,
  length prev = S (length costs) -> length (fill_row costs prev left) = length costs.
Proof.
  induction costs as [| c cs IH]; intros prev left H; [reflexivity |].
  destruct prev as [| d [| u p]]; simpl in H; try lia.
  simpl. f_equal. apply IH. simpl. lia.
Qed.

(** The recurrence inside one row. *)
Lemma fill_row_nth costs : forall prev left j,
  length prev = S (length costs) -> (j < length costs)%nat ->
  nth (S j) (left :: fill_row costs prev left) NaN =
  fadd (nth j costs NaN)
       (py_min3 (nth (S j) prev NaN)
                (nth j (left :: fill_row costs prev left) NaN)
                (nth j prev NaN)).
Proof.
  induction costs as [| c cs IH]; intros prev left j H Hj; [simpl in Hj; lia |].
  destruct prev as [| d [| u p]]; simpl in H; try lia.
  destruct j as [| j]; [reflexivity |].
  cbn [fill_row].
  change (nth (S (S j)) (left :: ?v :: ?r) NaN) with (nth (S j) (v :: r) NaN).
  change (nth (S j) (left :: ?v :: ?r) NaN) with (nth j (v :: r) NaN).
  rewrite IH; [reflexivity | simpl; lia | simpl in Hj; lia].
Qed.

Lemma dtw_rows_length dist : forall prev, length (dtw_rows dist prev) = length dist.
Proof. induction dist as [| c d IH]; intros prev; simpl; [| rewrite IH]; reflexivity. Qed.

(** Each row is computed from the row above. *)
Lemma dtw_rows_nth dist : forall prev i,
  (i < length dist)%nat ->
  nth (S i) (prev :: dtw_rows dist prev) [] =
  PInf :: fill_row (nth i dist []) (nth i (prev :: dtw_rows dist prev) []) PInf.
Proof.
  induction dist as [| c d IH]; intros prev i Hi; [simpl in Hi; lia |].
  destruct i as [| i]; [reflexivity |].
  cbn [dtw_rows].
  change (nth (S (S i)) (prev :: ?r :: ?t) []) with (nth (S i) (r :: t) []).
  change (nth (S i) (prev :: ?r :: ?t) []) with (nth i (r :: t) []).
  apply IH. simpl in Hi. lia.
Qed.

Section CumulativeMatrix.

Variable m : nat.
Variable dist : list (list pyfloat).
Hypothesis dist_width : forall i, (i < length dist)%nat -> length (nth i dist []) = m.

Let M := dtw_matrix m dist.

Lemma row_length i : (i <= length dist)%nat -> length (nth i M []) = S m.
Proof.
  induction i as [| i IH]; intros Hi.
  - simpl. now rewrite repeat_length.
  - unfold M, dtw_matrix. rewrite dtw_rows_nth by lia. simpl. f_equal.
    rewrite fill_row_length; [apply dist_width; lia |].
    rewrite dist_width by lia. apply IH. lia.
Qed.

Lemma cell_origin : cell M 0 0 = Fin 0.
Proof. reflexivity. Qed.

Lemma cell_top j : (j < m)%nat -> cell M 0 (S j) = PInf.
Proof. intros Hj. unfold cell. simpl. now apply nth_repeat_lt. Qed.

Lemma cell_side i : (i < length dist)%nat -> cell M (S i) 0 = PInf.
Proof.
  intros Hi. unfold cell, M, dtw_matrix. now rewrite dtw_rows_nth.
Qed.

(** [C[i][j] = D[i-1][j-1] + min(C[i-1][j], C[i][j-1], C[i-1][j-1])]. *)
Lemma cell_rec i j :
  (i < length dist)%nat -> (j < m)%nat ->
  cell M (S i) (S j) =
  fadd (nth j (nth i dist []) NaN)
       (py_min3 (cell M i (S j)) (cell M (S i) j) (cell M i j)).
Proof.
  intros Hi Hj. unfold cell.
  assert (Hrow : nth (S i) M [] = PInf :: fill_row (nth i dist []) (nth i M []) PInf).
  { unfold M, dtw_matrix. now rewrite dtw_rows_nth. }
  rewrite Hrow. apply fill_row_nth.
  - rewrite dist_width by lia. apply row_length. lia.
  - rewrite dist_width by lia. exact Hj.
Qed.

Hypothesis dist_cost : forall i j,
  (i < length dist)%nat -> (j < m)%nat -> fin_nonneg (nth j (nth i dist []) NaN).

(** Inside the matrix every cell is a finite cost. *)
Lemma cell_inner i : forall j,
  (i < length dist)%nat -> (j < m)%nat -> fin_nonneg (cell M (S i) (S j)).
Proof.
  induction i as [| i IHi]; intros j Hi; induction j as [| j IHj]; intros Hj;
    rewrite cell_rec by lia; apply fadd_fin_nonneg; try (apply dist_cost; lia);
    unfold py_min3.
  - rewrite cell_origin. apply py_min_fin_r; [| exists 0; split; [reflexivity | lra]].
    rewrite cell_top, cell_side by lia. now left.
  - rewrite !cell_top by lia. apply py_min_fin_l; [| now left].
    apply py_min_fin_r; [now left | apply IHj; lia].
  - rewrite !cell_side by lia. apply py_min_fin_l; [| now left].
    apply py_min_fin_l; [apply IHi; lia | now left].
  - apply py_min_fin_l; [| right; apply IHi; lia].
    apply py_min_fin_l; [apply IHi; lia | right; apply IHj; lia].
Qed.

(** The cell the backtracking moves to holds the minimum of the three. *)
Lemma choose_min i j :
  match choose M (S i) (S j) with
  | Up => cell M i (S j)
  | Left => cell M (S i) j
  | Diag => cell M i j
  end = py_min3 (cell M i (S j)) (cell M (S i) j) (cell M i j).
Proof.
  unfold choose, py_min3, py_min. simpl. rewrite !Nat.sub_0_r.
  destruct (flt (cell M (S i) j) (cell M i (S j)));
    [destruct (flt (cell M i j) (cell M (S i) j))
    | destruct (flt (cell M i j) (cell M i (S j)))]; reflexivity.
Qed.

(** The backtracking never walks onto the border, except to leave the
    matrix through the origin. *)
Lemma choose_up i j :
  (i < length dist)%nat -> (j < m)%nat ->
  choose M (S i) (S j) = Up -> (0 < i)%nat.
Proof.
  intros Hi Hj. unfold choose. simpl. rewrite !Nat.sub_0_r.
  destruct i as [| i]; [| lia]. intros H. exfalso.
  rewrite cell_top in H by lia.
  destruct j as [| j].
  - rewrite cell_origin, cell_side in H by lia. simpl in H. discriminate.
  - destruct (cell_inner 0 j) as (r & Hr & _); try lia.
    rewrite Hr, cell_top in H by lia. simpl in H. discriminate.
Qed.

Lemma choose_left i j :
  (i < length dist)%nat -> (j < m)%nat ->
  choose M (S i) (S j) = Left -> (0 < j)%nat.
Proof.
  intros Hi Hj. unfold choose. simpl. rewrite !Nat.sub_0_r.
  destruct j as [| j]; [| lia]. intros H. exfalso.
  rewrite cell_side in H by lia. simpl in H.
  destruct (flt (cell M i 0) (cell M i 1)); discriminate.
Qed.

Lemma choose_diag i j :
  (i < length dist)%nat -> (j < m)%nat ->
  choose M (S i) (S j) = Diag -> (i = 0 /\ j = 0)%nat \/ (0 < i /\ 0 < j)%nat.
Proof.
  intros Hi Hj. unfold choose. simpl. rewrite !Nat.sub_0_r.
  destruct i as [| i], j as [| j]; try (right; lia); try (left; lia);
    intros H; exfalso.
  - rewrite (cell_top j), !flt_PInf_l in H by lia.
    destruct (flt (cell M 1 (S j)) (cell M 0 (S (S j)))); discriminate.
  - rewrite (cell_side i), !flt_PInf_l in H by lia.
    destruct (flt (cell M (S (S i)) 0) (cell M (S i) 1)); discriminate.
Qed.

End CumulativeMatrix.

(** ** The distance matrix *)

Lemma euclidean_ok u v d :
  euclidean u v = Ok d ->
  exists u' v', broadcast u v = Some (u', v') /\ d = Fin (sqrt (sqdist u' v')).
Proof.
  unfold euclidean. destruct (broadcast u v) as [(u', v') |]; intros H;
    [injection H as <-; eauto | discriminate].
Qed.

Lemma euclidean_nonneg u v d : euclidean u v = Ok d -> fin_nonneg d.
Proof.
  intros H. apply euclidean_ok in H as (u' & v' & _ & ->).
  eexists. split; [reflexivity | apply sqrt_pos].
Qed.

Lemma euclidean_same_length u v :
  length u = length v -> euclidean u v = Ok (Fin (sqrt (sqdist u v))).
Proof.
  intros H. unfold euclidean, broadcast. now rewrite H, Nat.eqb_refl.
Qed.

Lemma dist_matrix_length ex asg dist :
  dist_matrix ex asg = Ok dist -> length dist = length ex.
Proof. apply mapM_length. Qed.

Lemma dist_matrix_row ex asg dist i :
  dist_matrix ex asg = Ok dist -> (i < length dist)%nat ->
  mapM (euclidean (nth i ex [])) asg = Ok (nth i dist []).
Proof.
  intros H Hi. pose proof (dist_matrix_length _ _ _ H) as Hlen.
  destruct (mapM_nth_error _ _ _ H i (nth i ex [])) as (row & Hrow & Hm).
  - apply nth_error_nth'. lia.
  - now rewrite (nth_error_nth _ _ _ Hrow).
Qed.

Lemma dist_matrix_width ex asg dist i :
  dist_matrix ex asg = Ok dist -> (i < length dist)%nat ->
  length (nth i dist []) = length asg.
Proof. intros H Hi. eapply mapM_length, dist_matrix_row; eauto. Qed.

Lemma dist_matrix_cell ex asg dist i j :
  dist_matrix ex asg = Ok dist -> (i < length dist)%nat -> (j < length asg)%nat ->
  euclidean (nth i ex []) (nth j asg []) = Ok (nth j (nth i dist []) NaN).
Proof.
  intros H Hi Hj. pose proof (dist_matrix_row _ _ _ _ H Hi) as Hrow.
  destruct (mapM_nth_error _ _ _ Hrow j (nth j asg [])) as (d & Hd & He).
  - now apply nth_error_nth'.
  - now rewrite (nth_error_nth _ _ _ Hd).
Qed.

Lemma dist_matrix_cost ex asg dist i j :
  dist_matrix ex asg = Ok dist -> (i < length dist)%nat -> (j < length asg)%nat ->
  fin_nonneg (nth j (nth i dist []) NaN).
Proof.
  intros H Hi Hj. eapply euclidean_nonneg, dist_matrix_cell; eauto.
Qed.

(** The distance matrix exists as soon as all vectors have one length. *)
Lemma dist_matrix_total ex asg w :
  Forall (fun u => length u = w) ex -> Forall (fun v => length v = w) asg ->
  exists dist, dist_matrix ex asg = Ok dist.
Proof.
  intros Hex Has. apply mapM_total. intros u Hu. apply mapM_total. intros v Hv.
  rewrite Forall_forall in Hex, Has.
  rewrite euclidean_same_length by now rewrite (Hex u Hu), (Has v Hv). eauto.
Qed.

(** ** The backtracking *)

Lemma backtrack_S M i j :
  backtrack M (S i) (S j) =
  (i, j) :: match choose M (S i) (S j) with
            | Up => backtrack M i (S j)
            | Left => backtrack M (S i) j
            | Diag => backtrack M i j
            end.
Proof. reflexivity. Qed.

Lemma backtrack_0_l M j : backtrack M 0 j = [].
Proof. now destruct j. Qed.

Lemma backtrack_0_r M i : backtrack M i 0 = [].
Proof. now destruct i. Qed.

(** Every pair the backtracking appends lies inside both sequences. *)
Lemma backtrack_in_range M : forall k i j p,
  (i + j <= k)%nat -> In p (backtrack M i j) -> (fst p < i)%nat /\ (snd p < j)%nat.
Proof.
  induction k as [| k IH]; intros i j p Hk Hin.
  - assert (i = 0%nat) by lia. subst. now rewrite backtrack_0_l in Hin.
  - destruct i as [| i]; [now rewrite backtrack_0_l in Hin |].
    destruct j as [| j]; [now rewrite backtrack_0_r in Hin |].
    rewrite backtrack_S in Hin. destruct Hin as [<- | Hin]; [simpl; lia |].
    destruct (choose M (S i) (S j)); apply IH in Hin; simpl in *; lia.
Qed.

Lemma down_steps_cons p q l :
  (fst q <= fst p <= S (fst q))%nat -> (snd q <= snd p <= S (snd q))%nat ->
  down_steps (q :: l) -> down_steps (p :: q :: l).
Proof.
  intros H1 H2 Hl [| k] a b Ha Hb; simpl in *.
  - injection Ha as <-. injection Hb as <-. auto.
  - eapply Hl; eauto.
Qed.

Lemma down_steps_single p : down_steps [p].
Proof. intros [| [| k]] a b Ha Hb; simpl in *; discriminate. Qed.

Lemma unit_steps_rev l : down_steps l -> unit_steps (rev l).
Proof.
  intros H k p q Hp Hq. rewrite nth_error_rev in Hp, Hq.
  destruct (Nat.ltb_spec (S k) (length l)) as [Hk |]; [| discriminate].
  destruct (Nat.ltb_spec k (length l)); [| lia].
  apply (H (length l - S (S k))%nat q p); [exact Hq |].
  replace (S (length l - S (S k))) with (length l - S k)%nat by lia. exact Hp.
Qed.

Section Backtracking.

Variable m : nat.
Variable dist : list (list pyfloat).
Hypothesis dist_width : forall i, (i < length dist)%nat -> length (nth i dist []) = m.
Hypothesis dist_cost : forall i j,
  (i < length dist)%nat -> (j < m)%nat -> fin_nonneg (nth j (nth i dist []) NaN).

Let M := dtw_matrix m dist.

(** From an inner cell the backtracking starts with that cell, ends in
    [(0, 0)] and moves down by unit steps. *)
Lemma backtrack_shape : forall k i j,
  (i + j <= k)%nat -> (i < length dist)%nat -> (j < m)%nat ->
  exists l, backtrack M (S i) (S j) = (i, j) :: l /\
            last ((i, j) :: l) (0%nat, 0%nat) = (0%nat, 0%nat) /\
            down_steps ((i, j) :: l).
Proof.
  induction k as [| k IH]; intros i j Hk Hi Hj.
  - assert (i = 0%nat) by lia. assert (j = 0%nat) by lia. subst.
    rewrite backtrack_S. exists []. split; [| split; [reflexivity | apply down_steps_single]].
    f_equal. destruct (choose M 1 1) eqn:Hc.
    + apply choose_up in Hc; auto; lia.
    + apply choose_left in Hc; auto; lia.
    + reflexivity.
  - rewrite backtrack_S. destruct (choose M (S i) (S j)) eqn:Hc.
    + apply choose_up in Hc; auto; try lia.
      destruct i as [| i]; [lia |].
      destruct (IH i j) as (l & Hl & Hlast & Hsteps); try lia.
      rewrite Hl. eexists. split; [reflexivity |]. split.
      * exact Hlast.
      * apply down_steps_cons; simpl; try lia. exact Hsteps.
    + apply choose_left in Hc; auto; try lia.
      destruct j as [| j]; [lia |].
      destruct (IH i j) as (l & Hl & Hlast & Hsteps); try lia.
      rewrite Hl. eexists. split; [reflexivity |]. split.
      * exact Hlast.
      * apply down_steps_cons; simpl; try lia. exact Hsteps.
    + apply choose_diag in Hc; auto; try lia.
      destruct Hc as [(-> & ->) | (Hi0 & Hj0)].
      * exists []. split; [reflexivity | split; [reflexivity | apply down_steps_single]].
      * destruct i as [| i]; [lia |]. destruct j as [| j]; [lia |].
        destruct (IH i j) as (l & Hl & Hlast & Hsteps); try lia.
        rewrite Hl. eexists. split; [reflexivity |]. split.
        -- exact Hlast.
        -- apply down_steps_cons; simpl; try lia. exact Hsteps.
Qed.

End Backtracking.

Lemma hd_error_rev {A} (l : list A) (d : A) :
  l <> [] -> hd_error (rev l) = Some (last l d).
Proof.
  destruct l as [| x t] using rev_ind; [congruence | intros _].
  now rewrite rev_app_distr, last_last.
Qed.

Lemma last_error_rev {A} (x : A) (l : list A) :
  nth_error (rev (x :: l)) (length (rev (x :: l)) - 1) = Some x.
Proof.
  rewrite nth_error_rev, length_rev. simpl length.
  destruct (Nat.ltb_spec (S (length l) - 1) (S (length l))); [| lia].
  replace (S (length l) - S (S (length l) - 1))%nat with 0%nat by lia. reflexivity.
Qed.

(** When all vectors have one length the [try] body runs to its end. *)
Lemma dtw_try_total ex asg w :
  Forall (fun u => length u = w) ex -> Forall (fun v => length v = w) asg ->
  exists a, dtw_try ex asg = Ok a.
Proof.
  intros Hex Has. destruct (dist_matrix_total ex asg w Hex Has) as (dist & Hd).
  unfold dtw_try. rewrite Hd. simpl. eauto.
Qed.

Lemma dtw_align_try ex asg a : dtw_try ex asg = Ok a -> _dtw_align ex asg = a.
Proof. unfold _dtw_align. now intros ->. Qed.

(** C2.  For non-empty sequences of lengths [n] and [m], when the dynamic
    programme runs (the aligner does not take its fallback branch), the path
    it returns starts at [(0, 0)], ends at [(n-1, m-1)], and at every step no
    coordinate decreases and none grows by more than one. *)
Theorem dtw_path_monotone (example_features assignment_features : list vector)
    (a : Alignment) :
  example_features <> [] -> assignment_features <> [] ->
  dtw_try example_features assignment_features = Ok a ->
  let p := path (_dtw_align example_features assignment_features) in
  hd_error p = Some (0%nat, 0%nat) /\
  nth_error p (length p - 1) =
    Some (length example_features - 1, length assignment_features - 1)%nat /\
  unit_steps p.
Proof.
  intros Hex Has Htry. rewrite (dtw_align_try _ _ _ Htry).
  unfold dtw_try in Htry. apply bind_ok in Htry as (dist & Hd & Ha).
  injection Ha as <-. cbn [path].
  pose proof (dist_matrix_length _ _ _ Hd) as Hn.
  destruct example_features as [| u ex]; [congruence |].
  destruct assignment_features as [| v asg]; [congruence |].
  cbn [length] in *.
  destruct (backtrack_shape (S (length asg)) dist) with (k := (length ex + length asg)%nat)
    (i := length ex) (j := length asg) as (l & Hl & Hlast & Hsteps).
  - intros i Hi. now apply (dist_matrix_width _ _ _ _ Hd).
  - intros i j Hi Hj. now apply (dist_matrix_cost _ _ _ _ _ Hd).
  - lia.
  - lia.
  - lia.
  - rewrite Hl. split; [| split].
    + rewrite (hd_error_rev _ (0%nat, 0%nat)) by discriminate. now rewrite Hlast.
    + rewrite last_error_rev. repeat f_equal; lia.
    + now apply unit_steps_rev.
Qed.

Lemma dtw_path_monotone_witness :
  [[0]] <> ([] : list vector) /\
  (exists a, dtw_try [[0]] [[0]] = Ok a) /\
  hd_error (path (_dtw_align [[0]] [[0]])) = Some (0%nat, 0%nat) /\
  nth_error (path (_dtw_align [[0]] [[0]]))
    (length (path (_dtw_align [[0]] [[0]])) - 1) = Some (0%nat, 0%nat) /\
  unit_steps (path (_dtw_align [[0]] [[0]])).
Proof.
  split; [discriminate |]. split; [eexists; reflexivity |].
  eapply (dtw_path_monotone [[0]] [[0]]); [discriminate | discriminate | reflexivity].
Defined.

(** ** The fallback branch of the aligner *)

Lemma dtw_try_raise_nonempty ex asg e : dtw_try ex asg = Raise e -> ex <> [].
Proof. intros H E. subst ex. discriminate H. Qed.

(** C4, as the code has it.  When the dynamic programme raises, the aligner
    raises nothing and returns a linear alignment with distance 0,
    normalized distance 0.5 and quality 0.5: its path has one pair for each
    index [i] of the example sequence, in order, and pairs [i] with
    [int(i * m / n)], the quotient rounded down, that is the [j] with
    [j n <= i m < (j + 1) n]. *)
Theorem fallback_alignment (example_features assignment_features : list vector)
    (e : exn) :
  dtw_try example_features assignment_features = Raise e ->
  let a := _dtw_align example_features assignment_features in
  let n := length example_features in
  let m := length assignment_features in
  distance a = Fin 0 /\ normalized_distance a = Fin 0.5 /\
  alignment_quality a = Fin 0.5 /\
  map fst (path a) = seq 0 n /\
  Forall (fun p => (snd p * n <= fst p * m < (snd p + 1) * n)%nat) (path a).
Proof.
  intros H a n m. pose proof (dtw_try_raise_nonempty _ _ _ H) as Hne.
  assert (Hn : (0 < n)%nat)
    by (subst n; destruct example_features; [congruence | simpl; lia]).
  subst a. unfold _dtw_align. rewrite H. unfold dtw_fallback.
  cbn [distance normalized_distance alignment_quality path]. fold n m.
  repeat (split; [reflexivity |]). split.
  - rewrite map_map. cbn [fst]. apply map_id.
  - apply Forall_map, Forall_forall. intros i _. cbn [fst snd].
    pose proof (Nat.div_mod_eq (i * m) n) as Hd.
    pose proof (Nat.mod_upper_bound (i * m) n ltac:(lia)) as Hr. nia.
Qed.

Lemma fallback_alignment_witness :
  dtw_try fallback_example fallback_assignment = Raise ValueError /\
  alignment_quality (_dtw_align fallback_example fallback_assignment) = Fin 0.5 /\
  map fst (path (_dtw_align fallback_example fallback_assignment)) = seq 0 2 /\
  Forall (fun p => (snd p * 2 <= fst p * 3 < (snd p + 1) * 2)%nat)
         (path (_dtw_align fallback_example fallback_assignment)).
Proof.
  split; [reflexivity |].
  destruct (fallback_alignment fallback_example fallback_assignment ValueError eq_refl)
    as (_ & _ & Hq & Hp & Hf).
  split; [exact Hq |]. split; [exact Hp | exact Hf].
Defined.

(** C4, as stated, fails: on two example frames of width 2 against three
    assignment frames of width 3 the distance function raises, and the
    fallback pairs index 1 with [int(1.5) = 1], not with [round(1.5) = 2];
    it has one pair per example frame, although the assignment sequence is
    the longer one. *)
Lemma fallback_not_rounded :
  dtw_try fallback_example fallback_assignment = Raise ValueError /\
  path (_dtw_align fallback_example fallback_assignment) <> spec_linear_path 2 3 /\
  length (path (_dtw_align fallback_example fallback_assignment)) <> Nat.max 2 3.
Proof.
  split; [reflexivity |]. split.
  - cbv. discriminate.
  - cbv. discriminate.
Qed.

(** ** The scorer *)

Lemma np_mean_nil : np_mean [] = NaN.
Proof.
  unfold np_mean, np_sum, fdiv. simpl. unfold scaled_inf. rbool; try reflexivity; lra.
Qed.

Lemma frame_scores_length ex asg pa scores :
  mapM (frame_score ex asg) pa = Ok scores -> length scores = length pa.
Proof. apply mapM_length. Qed.

(** C10.  The scorer returns one frame score per pair of the alignment path,
    so at every index of [frame_scores] the synthesizer's test
    [i < len(path)] succeeds. *)
Theorem frame_scores_cover_path (example_features assignment_features : list vector)
    (al : Alignment) (ts1 ts2 : list R) (sims : Similarities) :
  _calculate_similarities example_features assignment_features al ts1 ts2 = Ok sims ->
  length (frame_scores sims) = length (path al) /\
  forall i, (i < length (frame_scores sims))%nat -> (i <? length (path al))%nat = true.
Proof.
  unfold _calculate_similarities. intros H.
  apply bind_ok in H as (scores & Hs & H). apply bind_ok in H as (angle & _ & H).
  injection H as <-. cbn [frame_scores].
  pose proof (frame_scores_length _ _ _ _ Hs) as Hlen. split; [exact Hlen |].
  intros i Hi. apply Nat.ltb_lt. lia.
Qed.

Lemma frame_scores_cover_path_witness :
  exists sims,
    _calculate_similarities [[1]] [[1]] (dtw_fallback [[1]] [[1]]) [] [] = Ok sims /\
    length (frame_scores sims) = length (path (dtw_fallback [[1]] [[1]])).
Proof.
  eexists. split; [reflexivity |].
  exact (proj1 (frame_scores_cover_path [[1]] [[1]] (dtw_fallback [[1]] [[1]])
                  [] [] _ eq_refl)).
Defined.

(** The scorer on an alignment with an empty path. *)
Lemma similarities_empty_path ex asg al ts1 ts2 :
  path al = [] ->
  _calculate_similarities ex asg al ts1 ts2 =
  Ok {| pose_similarity := NaN;
        timing_similarity := alignment_quality al;
        angle_similarity := Fin 0;
        frame_scores := [] |}.
Proof.
  intros H. unfold _calculate_similarities, _calculate_angle_similarity.
  rewrite H. simpl. now rewrite np_mean_nil.
Qed.

Lemma dtw_align_empty :
  _dtw_align [] [] =
  {| distance := Fin 0; normalized_distance := NaN; path := [];
     alignment_quality := Fin 0 |}.
Proof.
  unfold _dtw_align, dtw_try. simpl. unfold cell, scaled_inf. simpl.
  rbool; try lra. reflexivity.
Qed.

(** C5, as stated, fails.  The aligner on two empty sequences gives an
    empty path; the scorer then raises nothing and returns timing and angle
    similarity 0, but [np.mean] of the empty score list makes
    [pose_similarity] a [nan], which is not 0. *)
Lemma empty_input_pose_similarity_nan :
  path (_dtw_align [] []) = [] /\
  exists sims,
    _calculate_similarities [] [] (_dtw_align [] []) [] [] = Ok sims /\
    pose_similarity sims = NaN /\
    feq (pose_similarity sims) (Fin 0) = false /\
    timing_similarity sims = Fin 0 /\
    angle_similarity sims = Fin 0.
Proof.
  rewrite dtw_align_empty. split; [reflexivity |].
  eexists. split; [apply similarities_empty_path; reflexivity |].
  cbn. auto.
Qed.

Lemma border_quality d k :
  d = PInf \/ (d = Fin 0 /\ k = 0%nat) ->
  py_max (Fin 0) (fsub (Fin 1) (fdiv d (Fin (INR k)))) = Fin 0.
Proof.
  intros [-> | (-> & ->)]; unfold fdiv.
  - pose proof (pos_INR k). rbool; [lra | reflexivity].
  - cbn [INR]. unfold scaled_inf. rbool; try lra. reflexivity.
Qed.

Lemma dist_matrix_empty_assignment ex : exists dist, dist_matrix ex [] = Ok dist.
Proof. apply mapM_total. intros u _. exists []. reflexivity. Qed.

(** The aligner on an empty sequence: no exception, an empty path and
    quality 0. *)
Lemma dtw_align_empty_side (ex asg : list vector) :
  ex = [] \/ asg = [] ->
  path (_dtw_align ex asg) = [] /\ alignment_quality (_dtw_align ex asg) = Fin 0.
Proof.
  intros [-> | ->].
  - unfold _dtw_align, dtw_try. cbn [dist_matrix mapM bind length path alignment_quality].
    rewrite backtrack_0_l. split; [reflexivity |]. apply border_quality.
    destruct (length asg) as [| k] eqn:E; [right; split; reflexivity |].
    left. unfold cell, dtw_matrix. cbn [dtw_rows nth]. apply nth_repeat_lt. lia.
  - destruct (dist_matrix_empty_assignment ex) as (dist & Hd).
    pose proof (dist_matrix_length _ _ _ Hd) as Hn.
    unfold _dtw_align, dtw_try. rewrite Hd. cbn [bind length path alignment_quality].
    rewrite backtrack_0_r. split; [reflexivity |]. apply border_quality.
    destruct (length ex) as [| k] eqn:E; [right; split; reflexivity |].
    left. apply cell_side. lia.
Qed.

(** C5, as the code has it.  On empty input, that is with the alignment
    the aligner returns when one of the feature sequences is empty, the path
    is empty and the scorer raises nothing: there is no frame score, timing
    and angle similarity are 0, and the pose similarity is the mean of no
    score, [nan]. *)
Theorem empty_input_similarities (example_features assignment_features : list vector)
    (ts1 ts2 : list R) :
  example_features = [] \/ assignment_features = [] ->
  let al := _dtw_align example_features assignment_features in
  path al = [] /\
  exists sims,
    _calculate_similarities example_features assignment_features al ts1 ts2
    = Ok sims /\
    frame_scores sims = [] /\ pose_similarity sims = NaN /\
    timing_similarity sims = Fin 0 /\ angle_similarity sims = Fin 0.
Proof.
  intros H al. destruct (dtw_align_empty_side _ _ H) as (Hp & Hq). fold al in Hp, Hq.
  split; [exact Hp |]. eexists. split; [apply similarities_empty_path; exact Hp |].
  cbn [frame_scores pose_similarity timing_similarity angle_similarity]. auto.
Qed.

Lemma empty_input_similarities_witness :
  (([] : list vector) = [] \/ [[1]] = ([] : list vector)) /\
  path (_dtw_align [] [[1]]) = [] /\
  exists sims,
    _calculate_similarities [] [[1]] (_dtw_align [] [[1]]) [] [] = Ok sims /\
    pose_similarity sims = NaN /\ timing_similarity sims = Fin 0.
Proof.
  assert (H : ([] : list vector) = [] \/ [[1]] = ([] : list vector)) by now left.
  split; [exact H |].
  destruct (empty_input_similarities [] [[1]] [] [] H)
    as (Hp & sims & Hs & _ & Hn & Ht & _).
  split; [exact Hp |]. exists sims. auto.
Defined.

(** ** The orchestrator on absent frames *)

Lemma filter_present_absent ps : all_absent ps -> filter_present ps = [].
Proof.
  unfold all_absent, filter_present. induction ps as [| [p |] t IH]; intros H.
  - reflexivity.
  - exfalso. apply (H p). now left.
  - simpl. apply IH. intros p Hp. apply (H p). now right.
Qed.

(** C6.  When one of the two sequences has no present frame,
    [compare_videos] raises nothing and returns the error dictionary: a
    non-empty message and [overall_similarity = 0]. *)
Theorem compare_videos_absent (example_pose_data assignment_pose_data : PoseData)
    (focus_areas : option (list string)) :
  all_absent (poses example_pose_data) \/ all_absent (poses assignment_pose_data) ->
  exists msg,
    compare_videos example_pose_data assignment_pose_data focus_areas
    = Ok (ErrorResult msg 0) /\ String.eqb msg "" = false.
Proof.
  intros H. exists "Could not detect poses in one or both videos".
  split; [| reflexivity]. unfold compare_videos.
  destruct H as [H | H]; rewrite (filter_present_absent _ H).
  - reflexivity.
  - now destruct (filter_present (poses example_pose_data)).
Qed.

Lemma compare_videos_absent_witness :
  (all_absent (poses absent_data) \/ all_absent (poses absent_data)) /\
  exists msg,
    compare_videos absent_data absent_data None = Ok (ErrorResult msg 0) /\
    String.eqb msg "" = false.
Proof.
  assert (H : all_absent (poses absent_data)).
  { intros p [Hp | [Hp | []]]; discriminate. }
  split; [now left |].
  apply (compare_videos_absent absent_data absent_data None). now left.
Defined.

(** ** The feedback synthesizer *)

Lemma scan_no_problem pa ts scores : forall i,
  Forall no_problem scores -> scan pa ts ([], None) i scores = ([], None).
Proof.
  induction scores as [| s t IH]; intros i H; [reflexivity |].
  inversion H as [| ? ? Hs Ht]; subst. simpl. unfold no_problem in Hs.
  rewrite Hs. now apply IH.
Qed.

(** C7.  When no frame score is below 0.6 and none of the three movement
    flags is set, the feedback list is the single positive item, whose issue
    is ["None"] and whose severity is ["none"]. *)
Theorem feedback_positive_only (sims : Similarities) (mv : Movement)
    (ts1 ts2 : list R) (al : Alignment) :
  Forall no_problem (frame_scores sims) ->
  is_too_fast mv = false -> is_too_slow mv = false -> is_too_stiff mv = false ->
  exists item,
    _generate_feedback_points sims mv ts1 ts2 al = Ok [item] /\
    issue item = "None" /\ severity item = "none".
Proof.
  intros Hs Hf Hsl Hst. exists positive_item. split; [| split; reflexivity].
  unfold _generate_feedback_points, problem_segments_of, tempo_items.
  rewrite scan_no_problem by exact Hs. rewrite Hf, Hsl, Hst. reflexivity.
Qed.

Lemma feedback_positive_only_witness :
  Forall no_problem (frame_scores clean_similarities) /\
  exists item,
    _generate_feedback_points clean_similarities clean_movement [] []
      (dtw_fallback [] []) = Ok [item] /\
    issue item = "None" /\ severity item = "none".
Proof.
  assert (H : Forall no_problem (frame_scores clean_similarities)).
  { repeat constructor; unfold no_problem; simpl; apply Rltb_false; lra. }
  split; [exact H |].
  apply (feedback_positive_only clean_similarities clean_movement [] []
           (dtw_fallback [] []) H); reflexivity.
Defined.

(** ** The fallback text *)

Lemma append_assoc (a b c : string) : ((a ++ b) ++ c = a ++ (b ++ c))%string.
Proof. induction a as [| ch a IH]; simpl; [| rewrite IH]; reflexivity. Qed.

Lemma append_nil_r (a : string) : (a ++ "" = a)%string.
Proof. induction a as [| ch a IH]; simpl; [| rewrite IH]; reflexivity. Qed.

Lemma append_points_spec points : forall feedback,
  append_points feedback points =
  (feedback ++ concat_lines
     (map point_line
        (filter (fun point => negb (String.eqb (issue point) "None")) points)))%string.
Proof.
  induction points as [| p t IH]; intros feedback; simpl.
  - now rewrite append_nil_r.
  - destruct (negb (issue p =? "None")%string); simpl.
    + now rewrite IH, append_assoc.
    + apply IH.
Qed.

(** The two comparisons of the code select the three bands. *)
Lemma band_line_spec similarity : band_line similarity = spec_band similarity.
Proof.
  unfold band_line, spec_band.
  destruct (fge similarity (Fin 80)) eqn:H80; [reflexivity |].
  destruct (fge similarity (Fin 65)) eqn:H65; [| reflexivity].
  replace (flt similarity (Fin 80)) with true; [reflexivity |].
  unfold fge, fle in *. destruct similarity; try discriminate. simpl.
  symmetry. apply Rltb_true. apply Rleb_false in H80. exact H80.
Qed.

Lemma spec_band_lines similarity :
  spec_band similarity = (spec_band_text similarity ++ spec_nl ++ spec_nl)%string.
Proof.
  unfold spec_band, spec_band_text. destruct (fge similarity (Fin 80)); [reflexivity |].
  destruct (fge similarity (Fin 65) && flt similarity (Fin 80)); reflexivity.
Qed.

Lemma point_line_spec item :
  point_line item = (spec_item_line item ++ spec_nl)%string.
Proof.
  unfold point_line, spec_item_line. now rewrite !append_assoc.
Qed.

Lemma concat_lines_spec items :
  concat_lines (map point_line items) = spec_lines (map spec_item_line items).
Proof.
  induction items as [| item t IH]; [reflexivity |].
  cbn [map concat_lines spec_lines fold_right]. unfold concat_lines in IH.
  now rewrite IH, point_line_spec, append_assoc.
Qed.

Lemma fallback_text_spec str_of_float similarity points :
  fallback_text str_of_float similarity points
  = spec_fallback_text str_of_float similarity points.
Proof.
  unfold fallback_text, spec_fallback_text.
  rewrite concat_lines_spec, spec_band_lines.
  cbn [app spec_lines fold_right]. now rewrite !append_assoc.
Qed.

(** C8, as the code has it.  On every comparison result that holds
    feedback points, that is on every full report, the fallback text is
    determined by [overall_similarity] and [feedback_points] alone: the score
    line, the line of the band ([>= 80], [>= 65] and [< 80], otherwise), the
    heading, and one line per feedback item whose issue is not ["None"].  On
    the error dictionary there is no text: the read of ['feedback_points']
    raises [KeyError]. *)
Theorem fallback_feedback_text (str_of_float : pyfloat -> string) :
  (forall r : Report,
     _generate_fallback_feedback str_of_float (FullReport r) =
     Ok (spec_fallback_text str_of_float (overall_similarity r) (feedback_points r))) /\
  (forall (msg : string) (overall : Z),
     _generate_fallback_feedback str_of_float (ErrorResult msg overall)
     = Raise KeyError).
Proof.
  split.
  - intros r. rewrite <- fallback_text_spec.
    unfold _generate_fallback_feedback, fallback_text.
    rewrite append_points_spec, band_line_spec. f_equal.
    now rewrite !append_assoc.
  - reflexivity.
Qed.

(** C8, as stated, fails: the result of comparing two recordings without
    any detected pose is a comparison result for which the fallback produces
    no text at all. *)
Lemma fallback_feedback_error_result :
  compare_videos absent_data absent_data None
  = Ok (ErrorResult "Could not detect poses in one or both videos" 0) /\
  _generate_fallback_feedback (fun _ => "")
    (ErrorResult "Could not detect poses in one or both videos" 0)
  = Raise KeyError.
Proof. split; reflexivity. Qed.

(** ** Velocities and the tempo flags *)

Lemma fdiv_fin_pos x y : 0 < y -> fdiv (Fin x) (Fin y) = Fin (x / y).
Proof. intros Hy. unfold fdiv. rbool; [lra | reflexivity]. Qed.

Lemma displacement_nonneg c p keys : forall acc,
  0 <= fst acc -> 0 <= fst (fold_left (displacement_step c p) keys acc).
Proof.
  induction keys as [| k t IH]; intros acc H; [exact H |].
  simpl. apply IH. unfold displacement_step.
  destruct (lookup k (landmarks c)), (lookup k (landmarks p)); simpl; try exact H.
  apply Rplus_le_le_0_compat; [exact H | apply sqrt_pos].
Qed.

Lemma frame_velocity_nonneg prev cur : fin_nonneg (frame_velocity prev cur).
Proof.
  assert (H0 : fin_nonneg (Fin 0)) by (exists 0; split; [reflexivity | lra]).
  unfold frame_velocity. destruct cur as [c |], prev as [p |]; try exact H0.
  set (acc := fold_left (displacement_step c p) velocity_keys (0, 0%nat)).
  assert (Hd : 0 <= fst acc) by (apply displacement_nonneg; simpl; lra).
  destruct (Nat.ltb_spec 0 (snd acc)) as [Hc |]; [| exact H0].
  assert (Hpos : 0 < INR (snd acc)) by (apply lt_0_INR; exact Hc).
  rewrite fdiv_fin_pos by exact Hpos. eexists. split; [reflexivity |].
  apply Rmult_le_pos; [exact Hd | left; now apply Rinv_0_lt_compat].
Qed.

Lemma velocities_nonneg ps : Forall fin_nonneg (_calculate_velocities ps).
Proof.
  induction ps as [| prev [| cur t] IH]; simpl; try constructor.
  - apply frame_velocity_nonneg.
  - exact IH.
Qed.

Lemma np_sum_nonneg l : Forall fin_nonneg l -> fin_nonneg (np_sum l).
Proof.
  induction 1 as [| a l Ha _ IH]; simpl.
  - exists 0. split; [reflexivity | lra].
  - now apply fadd_fin_nonneg.
Qed.

(** The mean of non-negative values is [nan] (no value) or non-negative. *)
Lemma np_mean_nonneg l : Forall fin_nonneg l -> l = [] \/ fin_nonneg (np_mean l).
Proof.
  intros H. destruct l as [| a t]; [now left | right].
  destruct (np_sum_nonneg _ H) as (s & Hs & Hs0). unfold np_mean. rewrite Hs.
  assert (Hpos : 0 < INR (length (a :: t))) by (apply lt_0_INR; simpl; lia).
  rewrite fdiv_fin_pos by exact Hpos. eexists. split; [reflexivity |].
  apply Rmult_le_pos; [exact Hs0 | left; now apply Rinv_0_lt_compat].
Qed.

Lemma mean_flags_exclusive ex_v as_v :
  Forall fin_nonneg ex_v -> Forall fin_nonneg as_v ->
  fgt (np_mean as_v) (fmul (np_mean ex_v) (Fin 1.3))
  && flt (np_mean as_v) (fmul (np_mean ex_v) (Fin 0.7)) = false.
Proof.
  intros Hex Has. unfold fgt.
  destruct (np_mean_nonneg _ Hex) as [-> | (e & -> & He)].
  - rewrite np_mean_nil. reflexivity.
  - destruct (np_mean_nonneg _ Has) as [-> | (a & -> & Ha)].
    + rewrite np_mean_nil. simpl. reflexivity.
    + simpl. rbool; try reflexivity. lra.
Qed.

Lemma has_issue_app s l1 l2 :
  has_issue s (l1 ++ l2) = has_issue s l1 || has_issue s l2.
Proof. apply existsb_app. Qed.

Lemma has_issue_none s l :
  Forall (fun item => String.eqb (issue item) s = false) l -> has_issue s l = false.
Proof.
  induction 1 as [| a l Ha _ IH]; simpl; [reflexivity |]. now rewrite Ha, IH.
Qed.

Lemma segment_item_issue s item :
  segment_item s = Ok item -> issue item = "Pose mismatch".
Proof.
  unfold segment_item. intros H. apply bind_ok in H as (pct & _ & H).
  now injection H as <-.
Qed.

(** Whatever the flags are, the branch [if ... elif ...] appends at most one
    of the two tempo items. *)
Lemma feedback_tempo_exclusive sims mv ts1 ts2 al fb :
  _generate_feedback_points sims mv ts1 ts2 al = Ok fb ->
  has_issue "Movement speed too fast" fb
  && has_issue "Movement speed too slow" fb = false.
Proof.
  unfold _generate_feedback_points. intros H.
  apply bind_ok in H as (segs & Hsegs & H). apply bind_ok in H as (tempo & Htempo & H).
  assert (Hseg : forall s, (s =? "Pose mismatch")%string = false ->
                           has_issue s segs = false).
  { intros s Hs. apply has_issue_none.
    apply (mapM_forall _ _ _ _ (fun x y _ Hy => eq_trans
             (f_equal (fun i => String.eqb i s) (segment_item_issue x y Hy))
             (eq_trans (String.eqb_sym _ _) Hs)) Hsegs). }
  assert (Hfb : fb = [positive_item] \/
                fb = (segs ++ tempo ++ (if is_too_stiff mv then [stiff_item] else []))%list).
  { destruct (segs ++ tempo ++ (if is_too_stiff mv then [stiff_item] else []))%list;
      injection H as <-; auto. }
  destruct Hfb as [-> | ->]; [reflexivity |].
  rewrite !has_issue_app, !Hseg by reflexivity.
  assert (Hstiff : forall s, (s =? "Stiff or jerky movements")%string = false ->
            has_issue s (if is_too_stiff mv then [stiff_item] else []) = false).
  { intros s Hs. destruct (is_too_stiff mv); [| reflexivity].
    unfold has_issue, existsb.
    change (issue stiff_item) with "Stiff or jerky movements".
    now rewrite String.eqb_sym, Hs. }
  rewrite !Hstiff by reflexivity. unfold tempo_items in Htempo.
  destruct (is_too_fast mv).
  - apply bind_ok in Htempo as (pct & _ & Ht). now injection Ht as <-.
  - destruct (is_too_slow mv).
    + apply bind_ok in Htempo as (pct & _ & Ht). now injection Ht as <-.
    + now injection Htempo as <-.
Qed.

(** C9.  The movement analysis never sets both [is_too_fast] and
    [is_too_slow]: the velocities are non-negative, so the candidate mean
    cannot exceed 1.3 times and fall below 0.7 times the reference mean.
    Hence a feedback list built from it never holds both tempo items. *)
Theorem tempo_flags_exclusive (example_poses assignment_poses : list (option Pose))
    (al : Alignment) :
  let mv := _analyze_movement_quality example_poses assignment_poses al in
  is_too_fast mv && is_too_slow mv = false /\
  forall sims ts1 ts2 al',
    match _generate_feedback_points sims mv ts1 ts2 al' with
    | Ok fb => has_issue "Movement speed too fast" fb
               && has_issue "Movement speed too slow" fb = false
    | Raise _ => True
    end.
Proof.
  split.
  - apply mean_flags_exclusive; apply velocities_nonneg.
  - intros sims ts1 ts2 al'.
    destruct (_generate_feedback_points sims _ ts1 ts2 al') eqn:H; [| exact I].
    eapply feedback_tempo_exclusive; eauto.
Qed.

(** ** Feature vectors have one length *)

Lemma pose_features_length p : length (pose_features p) = feature_length.
Proof.
  unfold pose_features. rewrite length_firstn, length_app, repeat_length. lia.
Qed.

Lemma poses_to_features_length ps focus :
  Forall (fun u => length u = feature_length) (_poses_to_features ps focus).
Proof.
  unfold _poses_to_features. apply Forall_map, Forall_forall. intros [p |] _.
  - apply pose_features_length.
  - apply repeat_length.
Qed.

Lemma poses_to_features_count ps focus :
  length (_poses_to_features ps focus) = length ps.
Proof. apply length_map. Qed.

Lemma nth_width (w : nat) (l : list vector) i :
  Forall (fun u => length u = w) l -> (i < length l)%nat -> length (nth i l []) = w.
Proof.
  intros H Hi. rewrite Forall_forall in H. apply H. now apply nth_In.
Qed.

(** ** The scorer never raises on vectors of one length *)

Lemma is_fin_score X : is_fin (py_max (Fin 0) (fsub (Fin 1) (np_clip X 0 2))).
Proof.
  destruct X; simpl; unfold py_max; simpl; rbool; eexists; reflexivity.
Qed.

Lemma frame_score_fin ex asg p s : frame_score ex asg p = Ok s -> is_fin s.
Proof.
  unfold frame_score. destruct p as (i, j).
  destruct ((i <? length ex)%nat && (j <? length asg)%nat).
  - intros H. apply bind_ok in H as (c & Hc & H). injection H as <-.
    unfold cosine in Hc. destruct (length (nth i ex []) =? length (nth j asg []))%nat;
      [| discriminate]. injection Hc as <-. apply is_fin_score.
  - intros H. injection H as <-. now exists 0.
Qed.

Lemma frame_score_total (w : nat) (ex asg : list vector) p :
  Forall (fun u => length u = w) ex -> Forall (fun v => length v = w) asg ->
  exists s, frame_score ex asg p = Ok s.
Proof.
  intros Hex Has. unfold frame_score. destruct p as (i, j). cbv beta iota.
  destruct (Nat.ltb_spec i (length ex)), (Nat.ltb_spec j (length asg));
    cbn [andb]; eauto.
  unfold cosine. rewrite (nth_width w ex), (nth_width w asg), Nat.eqb_refl by assumption.
  simpl. eauto.
Qed.

Lemma angle_diffs_total (w : nat) (ex asg : list vector) pa :
  Forall (fun u => length u = w) ex -> Forall (fun v => length v = w) asg ->
  exists ds, angle_diffs ex asg pa = Ok ds.
Proof.
  intros Hex Has. induction pa as [| (i, j) t (ds & IH)]; cbn [angle_diffs]; [eauto |].
  destruct (Nat.ltb_spec i (length ex)), (Nat.ltb_spec j (length asg));
    cbn [andb]; eauto.
  rewrite euclidean_same_length
    by (rewrite (nth_width w ex), (nth_width w asg) by assumption; reflexivity).
  simpl. rewrite IH. simpl. eauto.
Qed.

Lemma similarities_total (w : nat) (ex asg : list vector) al ts1 ts2 :
  Forall (fun u => length u = w) ex -> Forall (fun v => length v = w) asg ->
  exists sims, _calculate_similarities ex asg al ts1 ts2 = Ok sims.
Proof.
  intros Hex Has. unfold _calculate_similarities, _calculate_angle_similarity.
  destruct (mapM_total (frame_score ex asg) (path al)) as (scores & ->).
  { intros p _. now apply (frame_score_total w). }
  destruct (angle_diffs_total w ex asg (path al) Hex Has) as (ds & ->).
  simpl. destruct ds; simpl; eauto.
Qed.

Lemma similarities_scores_fin ex asg al ts1 ts2 sims :
  _calculate_similarities ex asg al ts1 ts2 = Ok sims ->
  Forall is_fin (frame_scores sims).
Proof.
  unfold _calculate_similarities. intros H.
  apply bind_ok in H as (scores & Hs & H). apply bind_ok in H as (angle & _ & H).
  injection H as <-. cbn [frame_scores].
  eapply mapM_forall; [| exact Hs]. intros p s _. apply frame_score_fin.
Qed.

(** ** The feedback synthesizer never raises on the scorer's output *)

Lemma np_sum_fin l : Forall is_fin l -> is_fin (np_sum l).
Proof.
  induction 1 as [| a l (x & ->) _ (s & IH)]; simpl.
  - now exists 0.
  - rewrite IH. now exists (x + s).
Qed.

Lemma np_mean_fin l : l <> [] -> Forall is_fin l -> is_fin (np_mean l).
Proof.
  intros Hne H. destruct (np_sum_fin _ H) as (s & Hs). unfold np_mean. rewrite Hs.
  rewrite fdiv_fin_pos; [eexists; reflexivity |].
  apply lt_0_INR. destruct l; [congruence | simpl; lia].
Qed.

Lemma scan_step_ok pa ts st i score :
  is_fin score ->
  Forall seg_ok (fst st) -> (forall s, snd st = Some s -> seg_ok s) ->
  Forall seg_ok (fst (scan_step pa ts st i score)) /\
  (forall s, snd (scan_step pa ts st i score) = Some s -> seg_ok s).
Proof.
  intros Hscore Hsegs Hcur. destruct st as (segs, cur). unfold scan_step.
  simpl in Hsegs, Hcur. destruct (flt score (Fin 0.6)).
  - destruct (i <? length pa)%nat; [| now split].
    destruct (nth i pa (0%nat, 0%nat)) as (ex_idx, as_idx).
    destruct cur as [s |]; simpl; (split; [exact Hsegs |]);
      intros s' Hs'; injection Hs' as <-; split; simpl.
    + destruct (seg_scores s); discriminate.
    + apply Forall_app. split; [apply (Hcur s eq_refl) | now constructor].
    + discriminate.
    + now constructor.
  - destruct cur as [s |]; simpl; [| now split]. split; [| discriminate].
    apply Forall_app. split; [exact Hsegs |]. constructor; [now apply Hcur | constructor].
Qed.

Lemma scan_ok pa ts scores : forall st i,
  Forall is_fin scores ->
  Forall seg_ok (fst st) -> (forall s, snd st = Some s -> seg_ok s) ->
  Forall seg_ok (fst (scan pa ts st i scores)) /\
  (forall s, snd (scan pa ts st i scores) = Some s -> seg_ok s).
Proof.
  induction scores as [| score t IH]; intros st i Hs Hsegs Hcur; [now split |].
  inversion Hs as [| ? ? Hscore Ht]; subst. simpl.
  destruct (scan_step_ok pa ts st i score Hscore Hsegs Hcur) as (H1 & H2).
  now apply IH.
Qed.

Lemma problem_segments_ok pa ts scores :
  Forall is_fin scores -> Forall seg_ok (problem_segments_of pa ts scores).
Proof.
  intros Hs. unfold problem_segments_of.
  destruct (scan_ok pa ts scores ([], None) 0 Hs) as (H1 & H2);
    [constructor | discriminate |].
  destruct (scan pa ts ([], None) 0 scores) as (segs, [s |]); simpl in *.
  - apply Forall_app. split; [exact H1 |]. constructor; [now apply H2 | constructor].
  - exact H1.
Qed.

Lemma segment_item_total s : seg_ok s -> exists item, segment_item s = Ok item.
Proof.
  intros (Hne & Hfin). unfold segment_item.
  destruct (np_mean_fin _ Hne Hfin) as (a & ->). simpl. eauto.
Qed.

Lemma compare_velocities_fin v1 v2 :
  Forall fin_nonneg v1 -> Forall fin_nonneg v2 -> is_fin (_compare_velocities v1 v2).
Proof.
  intros H1 H2. unfold _compare_velocities.
  destruct v1 as [| a1 t1]; [now exists 0 |].
  destruct v2 as [| a2 t2]; [now exists 0 |].
  destruct (np_mean_nonneg _ H1) as [| (x & -> & Hx)]; [discriminate |].
  destruct (np_mean_nonneg _ H2) as [| (y & -> & Hy)]; [discriminate |].
  unfold feq, py_min, py_max, fdiv, flt.
  rbool; try (eexists; reflexivity); exfalso; lra.
Qed.

Lemma tempo_items_total mv :
  is_fin (velocity_similarity mv) -> exists l, tempo_items mv = Ok l.
Proof.
  intros (v & Hv). unfold tempo_items. rewrite Hv. simpl.
  destruct (is_too_fast mv); [eauto |]. destruct (is_too_slow mv); eauto.
Qed.

Lemma feedback_total sims mv ts1 ts2 al :
  Forall is_fin (frame_scores sims) -> is_fin (velocity_similarity mv) ->
  exists fb, _generate_feedback_points sims mv ts1 ts2 al = Ok fb.
Proof.
  intros Hs Hv. unfold _generate_feedback_points.
  destruct (mapM_total segment_item
              (problem_segments_of (path al) ts1 (frame_scores sims))) as (items & ->).
  { intros s Hin. apply segment_item_total.
    pose proof (problem_segments_ok (path al) ts1 _ Hs) as Hok.
    rewrite Forall_forall in Hok. now apply Hok. }
  destruct (tempo_items_total mv Hv) as (tempo & ->). simpl.
  destruct (items ++ tempo ++ (if is_too_stiff mv then [stiff_item] else []))%list; eauto.
Qed.

(** ** The orchestrator returns a report *)

Lemma fmul_comm a b : fmul a b = fmul b a.
Proof. destruct a, b; simpl; try reflexivity. f_equal. apply Rmult_comm. Qed.

Lemma overall_score_weighted sims mv :
  _calculate_overall_score sims mv =
  weighted_sum (pose_similarity sims) (timing_similarity sims)
               (angle_similarity sims) (smoothness_score mv).
Proof.
  unfold _calculate_overall_score, weighted_sum.
  now rewrite (fmul_comm (Fin 0.40)), (fmul_comm (Fin 0.25)),
    (fmul_comm (Fin 0.20)), (fmul_comm (Fin 0.15)).
Qed.

(** With a present frame on both sides no step of [compare_videos] raises,
    and the report is assembled from the scorer's and the analyzer's
    results. *)
Lemma compare_videos_report (pd1 pd2 : PoseData) (focus : option (list string)) :
  filter_present (poses pd1) <> [] -> filter_present (poses pd2) <> [] ->
  let ex_f := _poses_to_features (filter_present (poses pd1)) focus in
  let as_f := _poses_to_features (filter_present (poses pd2)) focus in
  let al := _dtw_align ex_f as_f in
  let mv := _analyze_movement_quality (filter_present (poses pd1))
              (filter_present (poses pd2)) al in
  exists sims fb,
    _calculate_similarities ex_f as_f al (timestamps pd1) (timestamps pd2) = Ok sims /\
    _generate_feedback_points sims mv (timestamps pd1) (timestamps pd2) al = Ok fb /\
    compare_videos pd1 pd2 focus =
    Ok (FullReport
          {| overall_similarity := percent (_calculate_overall_score sims mv);
             similarity_breakdown :=
               {| pose_accuracy := percent (pose_similarity sims);
                  timing_accuracy := percent (timing_similarity sims);
                  movement_smoothness := percent (smoothness_score mv);
                  angle_accuracy := percent (angle_similarity sims) |};
             feedback_points := fb;
             alignment := al;
             frame_similarities := frame_scores sims;
             movement_metrics := mv |}).
Proof.
  intros H1 H2 ex_f as_f al mv.
  destruct (similarities_total feature_length ex_f as_f al (timestamps pd1)
              (timestamps pd2)) as (sims & Hsims);
    try apply poses_to_features_length.
  destruct (feedback_total sims mv (timestamps pd1) (timestamps pd2) al) as (fb & Hfb).
  { eapply similarities_scores_fin; eauto. }
  { apply compare_velocities_fin; apply velocities_nonneg. }
  exists sims, fb. split; [exact Hsims |]. split; [exact Hfb |].
  unfold compare_videos. fold ex_f as_f al mv. rewrite Hsims. simpl. rewrite Hfb. simpl.
  destruct (filter_present (poses pd1)); [congruence |].
  destruct (filter_present (poses pd2)); [congruence |]. reflexivity.
Qed.

(** ** Alignments of cost zero *)

Lemma py_min_zero_r X : cost_or_inf X -> py_min X (Fin 0) = Fin 0.
Proof.
  intros [-> | (x & -> & Hx)]; unfold py_min; simpl; [reflexivity |].
  rbool; [reflexivity | f_equal; lra].
Qed.

Section ZeroCost.

Variable m : nat.
Variable dist : list (list pyfloat).
Hypothesis dist_width : forall i, (i < length dist)%nat -> length (nth i dist []) = m.
Hypothesis dist_cost : forall i j,
  (i < length dist)%nat -> (j < m)%nat -> fin_nonneg (nth j (nth i dist []) NaN).

Let M := dtw_matrix m dist.

Lemma cell_cost i j :
  (i <= length dist)%nat -> (j <= m)%nat -> cost_or_inf (cell M i j).
Proof.
  intros Hi Hj. destruct i as [| i], j as [| j].
  - right. exists 0. split; [reflexivity | lra].
  - left. apply cell_top. lia.
  - left. apply cell_side. lia.
  - right. apply cell_inner; auto; lia.
Qed.

(** From an inner cell of cumulative cost zero the backtracking only
    visits pairs of distance zero. *)
Lemma backtrack_zero : forall k i j,
  (i + j < k)%nat -> (i < length dist)%nat -> (j < m)%nat ->
  cell M (S i) (S j) = Fin 0 ->
  Forall (fun p => nth (snd p) (nth (fst p) dist []) NaN = Fin 0)
         (backtrack M (S i) (S j)).
Proof.
  induction k as [| k IH]; intros i j Hk Hi Hj Hz; [lia |].
  rewrite backtrack_S. unfold M in Hz. rewrite cell_rec in Hz by assumption.
  rewrite <- (choose_min m dist i j) in Hz. fold M in Hz.
  assert (Hmin : fin_nonneg (match choose M (S i) (S j) with
                             | Up => cell M i (S j)
                             | Left => cell M (S i) j
                             | Diag => cell M i j
                             end)).
  { assert (Hc : cost_or_inf (match choose M (S i) (S j) with
                              | Up => cell M i (S j)
                              | Left => cell M (S i) j
                              | Diag => cell M i j
                              end))
      by (destruct (choose M (S i) (S j)); apply cell_cost; lia).
    destruct Hc as [Hc | Hc]; [| exact Hc]. rewrite Hc in Hz.
    destruct (dist_cost i j Hi Hj) as (d & Hd & _). rewrite Hd in Hz. discriminate. }
  destruct (fadd_zero _ _ (dist_cost i j Hi Hj) Hmin Hz) as (Hd & Hc).
  constructor; [exact Hd |].
  destruct (choose M (S i) (S j)) eqn:Hmove.
  - apply choose_up in Hmove; auto. destruct i as [| i]; [lia |].
    apply IH; auto; lia.
  - apply choose_left in Hmove; auto. destruct j as [| j]; [lia |].
    apply IH; auto; lia.
  - apply choose_diag in Hmove; auto. destruct Hmove as [(-> & ->) | (Hi0 & Hj0)].
    + constructor.
    + destruct i as [| i]; [lia |]. destruct j as [| j]; [lia |].
      apply IH; auto; lia.
Qed.

Hypothesis square : length dist = m.
Hypothesis dist_diag : forall i, (i < m)%nat -> nth i (nth i dist []) NaN = Fin 0.

(** Identical sequences: the diagonal of the cumulative matrix is zero. *)
Lemma cell_diag_zero i : (i <= m)%nat -> cell M i i = Fin 0.
Proof.
  induction i as [| i IH]; intros Hi; [reflexivity |].
  unfold M. rewrite (cell_rec m dist dist_width) by lia. fold M.
  rewrite dist_diag, IH by lia. unfold py_min3.
  rewrite py_min_zero_r; [simpl; f_equal; lra |].
  apply py_min_cost; apply cell_cost; lia.
Qed.

End ZeroCost.

(** ** Distances between equal vectors *)

Lemma sq_nonneg x : 0 <= x * x.
Proof. exact (Rle_0_sqr x). Qed.

Lemma sq_zero x : x * x = 0 -> x = 0.
Proof. intros H. destruct (Rmult_integral _ _ H); assumption. Qed.

Lemma sqdist_cons a u b v : sqdist (a :: u) (b :: v) = (a - b) * (a - b) + sqdist u v.
Proof. unfold sqdist. cbn [combine map fold_right fst snd]. ring. Qed.

Lemma sqdist_nil_l v : sqdist [] v = 0.
Proof. reflexivity. Qed.

Lemma sqdist_nil_r u : sqdist u [] = 0.
Proof. now destruct u. Qed.

Lemma sqdist_nonneg u : forall v, 0 <= sqdist u v.
Proof.
  induction u as [| a u IH]; intros [| b v];
    rewrite ?sqdist_nil_l, ?sqdist_nil_r, ?sqdist_cons; try lra.
  specialize (IH v). pose proof (sq_nonneg (a - b)). lra.
Qed.

Lemma sqdist_self u : sqdist u u = 0.
Proof.
  induction u as [| a u IH]; [reflexivity |]. rewrite sqdist_cons, IH. ring.
Qed.

Lemma sqdist_zero_eq u : forall v,
  length u = length v -> sqdist u v = 0 -> u = v.
Proof.
  induction u as [| a u IH]; intros [| b v] Hlen H; try discriminate; [reflexivity |].
  pose proof (sqdist_nonneg u v) as Hn. rewrite sqdist_cons in H. simpl in Hlen.
  pose proof (sq_nonneg (a - b)) as Hs.
  assert (Ha : a - b = 0) by (apply sq_zero; lra).
  assert (b = a) by lra. subst b. f_equal. apply IH; [lia | lra].
Qed.

Lemma dot_cons a u b v : dot (a :: u) (b :: v) = a * b + dot u v.
Proof. reflexivity. Qed.

Lemma dot_self_nonneg u : 0 <= dot u u.
Proof.
  induction u as [| a u IH]; [unfold dot; simpl; lra |]. rewrite dot_cons.
  pose proof (sq_nonneg a). lra.
Qed.

Lemma dot_self_pos u : nonzero_vector u -> 0 < dot u u.
Proof.
  intros (x & Hin & Hx). induction u as [| a u IH]; [contradiction |].
  pose proof (dot_self_nonneg u) as Hn. rewrite dot_cons.
  pose proof (sq_nonneg a) as Ha. destruct Hin as [-> | Hin].
  - assert (x * x <> 0) by (intros H; now apply sq_zero in H). lra.
  - specialize (IH Hin). lra.
Qed.

Lemma euclidean_self u : euclidean u u = Ok (Fin 0).
Proof.
  rewrite euclidean_same_length by reflexivity. now rewrite sqdist_self, sqrt_0.
Qed.

(** The cosine distance of a non-zero vector to itself is 0. *)
Lemma cosine_self u : nonzero_vector u -> cosine u u = Ok (Fin 0).
Proof.
  intros Hu. pose proof (dot_self_pos u Hu) as Hpos.
  unfold cosine. rewrite Nat.eqb_refl, sqrt_square by lra.
  rewrite fdiv_fin_pos by exact Hpos. simpl. do 2 f_equal.
  replace (1 + - (dot u u / dot u u)) with 0 by (field; lra).
  unfold Rmax, Rmin. repeat destruct (Rle_dec _ _); lra.
Qed.

Lemma frame_score_equal (feats : list vector) a b :
  (a < length feats)%nat -> (b < length feats)%nat ->
  nth a feats [] = nth b feats [] -> nonzero_vector (nth a feats []) ->
  frame_score feats feats (a, b) = Ok (Fin 1).
Proof.
  intros Ha Hb Heq Hu. unfold frame_score. apply Nat.ltb_lt in Ha, Hb.
  rewrite Ha, Hb. cbn [andb]. rewrite <- Heq, cosine_self by exact Hu.
  simpl. unfold py_max. simpl. rbool; [do 2 f_equal; lra | lra].
Qed.

(** ** Lists of one value *)

Lemma mapM_const {A B} (f : A -> res B) (c : B) (l : list A) :
  Forall (fun x => f x = Ok c) l -> mapM f l = Ok (repeat c (length l)).
Proof.
  induction 1 as [| x l Hx _ IH]; simpl; [reflexivity |]. now rewrite Hx, IH.
Qed.

Lemma np_sum_repeat c k : np_sum (repeat (Fin c) k) = Fin (c * INR k).
Proof.
  induction k as [| k IH]; [simpl; f_equal; lra |].
  change (np_sum (repeat (Fin c) (S k))) with (fadd (Fin c) (np_sum (repeat (Fin c) k))).
  rewrite IH, S_INR. simpl. f_equal. lra.
Qed.

Lemma np_mean_repeat c k : (0 < k)%nat -> np_mean (repeat (Fin c) k) = Fin c.
Proof.
  intros Hk. unfold np_mean. rewrite np_sum_repeat, repeat_length.
  assert (Hpos : 0 < INR k) by now apply lt_0_INR.
  rewrite fdiv_fin_pos by exact Hpos. f_equal. field. lra.
Qed.

(** ** A sequence aligned with itself *)

Lemma rev_cons_nonempty {A} (x : A) (l : list A) : rev (x :: l) <> [].
Proof. simpl. destruct (rev l); discriminate. Qed.

(** The alignment of a sequence with itself costs nothing, and every pair
    of its path joins two equal feature vectors. *)
Lemma self_alignment (feats : list vector) (w : nat) :
  feats <> [] -> Forall (fun u => length u = w) feats ->
  exists pa,
    _dtw_align feats feats =
    {| distance := Fin 0; normalized_distance := Fin 0; path := pa;
       alignment_quality := Fin 1 |} /\
    pa <> [] /\
    Forall (fun p => (fst p < length feats)%nat /\ (snd p < length feats)%nat /\
                     nth (fst p) feats [] = nth (snd p) feats []) pa.
Proof.
  intros Hne Hw. destruct (dist_matrix_total feats feats w Hw Hw) as (dist & Hd).
  pose proof (dist_matrix_length _ _ _ Hd) as Hlen.
  set (m := length feats) in *.
  assert (Hwidth : forall i, (i < length dist)%nat -> length (nth i dist []) = m)
    by (intros i Hi; now apply (dist_matrix_width _ _ _ _ Hd)).
  assert (Hcost : forall i j, (i < length dist)%nat -> (j < m)%nat ->
                              fin_nonneg (nth j (nth i dist []) NaN))
    by (intros i j Hi Hj; now apply (dist_matrix_cost _ _ _ _ _ Hd)).
  assert (Hdiag : forall i, (i < m)%nat -> nth i (nth i dist []) NaN = Fin 0).
  { intros i Hi. pose proof (dist_matrix_cell _ _ _ i i Hd) as Hc.
    rewrite euclidean_self in Hc. symmetry. injection (Hc ltac:(lia) ltac:(lia)); auto. }
  assert (Hm : (0 < m)%nat) by (subst m; destruct feats; [congruence | simpl; lia]).
  destruct m as [| k] eqn:Em; [lia |].
  pose proof (cell_diag_zero (S k) dist Hwidth Hcost Hlen Hdiag (S k) (le_n _)) as Hzero.
  exists (rev (backtrack (dtw_matrix (S k) dist) (S k) (S k))). split; [| split].
  - unfold _dtw_align, dtw_try. rewrite Hd. cbn [bind]. fold m. rewrite Em, Hzero, Nat.max_id.
    assert (Hpos : 0 < INR (S k * 10)) by (apply lt_0_INR; lia).
    rewrite fdiv_fin_pos by exact Hpos.
    replace (0 / INR (S k * 10)) with 0 by (unfold Rdiv; now rewrite Rmult_0_l).
    f_equal.
    + unfold py_min. simpl. rbool; [lra | reflexivity].
    + unfold py_max. simpl. rbool; [f_equal; lra | lra].
  - rewrite backtrack_S. apply rev_cons_nonempty.
  - apply Forall_rev.
    pose proof (backtrack_zero (S k) dist Hwidth Hcost (S (k + k)) k k) as Hz.
    rewrite Forall_forall in Hz |- *. intros (a, b) Hin.
    destruct (backtrack_in_range _ _ _ _ _ (le_n _) Hin) as (Ha & Hb). simpl in Ha, Hb.
    split; [exact Ha |]. split; [exact Hb |].
    specialize (Hz ltac:(lia) ltac:(lia) ltac:(lia) Hzero (a, b) Hin). simpl in Hz.
    assert (Hl : length (nth a feats []) = length (nth b feats []))
      by (rewrite !(nth_width w feats) by (assumption || lia); reflexivity).
    pose proof (dist_matrix_cell _ _ _ a b Hd ltac:(lia) ltac:(lia)) as Hc.
    rewrite (euclidean_same_length _ _ Hl), Hz in Hc. injection Hc as Hc. simpl.
    apply sqdist_zero_eq; [exact Hl |].
    apply sqrt_eq_0; [apply sqdist_nonneg | exact Hc].
Qed.

Lemma angle_diffs_equal (feats : list vector) pa :
  Forall (fun p => (fst p < length feats)%nat /\ (snd p < length feats)%nat /\
                   nth (fst p) feats [] = nth (snd p) feats []) pa ->
  angle_diffs feats feats pa = Ok (repeat (Fin 0) (length pa)).
Proof.
  induction 1 as [| (a, b) t (Ha & Hb & Heq) _ IH]; [reflexivity |].
  simpl in Ha, Hb, Heq. cbn [angle_diffs]. apply Nat.ltb_lt in Ha, Hb.
  rewrite Ha, Hb. cbn [andb]. rewrite <- Heq, euclidean_self, IH. reflexivity.
Qed.

Lemma self_similarities (feats : list vector) (w : nat) ts1 ts2 :
  feats <> [] -> Forall (fun u => length u = w) feats ->
  Forall nonzero_vector feats ->
  exists scores,
    _calculate_similarities feats feats (_dtw_align feats feats) ts1 ts2 =
    Ok {| pose_similarity := Fin 1; timing_similarity := Fin 1;
          angle_similarity := Fin 1; frame_scores := scores |}.
Proof.
  intros Hne Hw Hnz. destruct (self_alignment feats w Hne Hw) as (pa & Hal & Hpa & Heq).
  rewrite Hal. unfold _calculate_similarities, _calculate_angle_similarity. cbn [path].
  assert (Hlen : (0 < length pa)%nat) by (destruct pa; [congruence | simpl; lia]).
  rewrite (mapM_const _ (Fin 1)).
  2:{ rewrite Forall_forall in Heq |- *. intros (a, b) Hin.
      destruct (Heq _ Hin) as (Ha & Hb & He). simpl in Ha, Hb, He.
      apply frame_score_equal; auto. rewrite Forall_forall in Hnz. apply Hnz.
      now apply nth_In. }
  rewrite angle_diffs_equal by exact Heq. cbn [bind].
  exists (repeat (Fin 1) (length pa)). rewrite !np_mean_repeat by exact Hlen.
  destruct (length pa) as [| k] eqn:Ek; [lia |]. cbn [repeat alignment_quality].
  rewrite fdiv_fin_pos by lra.
  assert (Ha : py_max (Fin 0) (fsub (Fin 1) (Fin (0 / 2))) = Fin 1)
    by (unfold py_max; simpl; rbool; [f_equal; lra | lra]).
  rewrite Ha. reflexivity.
Qed.

(** ** Smoothness is finite *)

Lemma np_diff_fin l : Forall is_fin l -> Forall is_fin (np_diff l).
Proof.
  induction l as [| a [| b t] IH]; intros H; simpl; try constructor.
  - inversion H as [| ? ? (x & ->) H']; subst.
    inversion H' as [| ? ? (y & ->) _]; subst. simpl. eexists; reflexivity.
  - apply IH. now inversion H.
Qed.

Lemma np_abs_fin l : Forall is_fin l -> Forall is_fin (np_abs l).
Proof.
  unfold np_abs. intros H. apply Forall_map. eapply Forall_impl; [| exact H].
  intros a (x & ->). simpl. eexists; reflexivity.
Qed.

Lemma smoothness_fin ps : is_fin (_calculate_smoothness ps).
Proof.
  unfold _calculate_smoothness.
  destruct (length (_calculate_velocities ps) <? 2)%nat; [eexists; reflexivity |].
  destruct (Nat.eqb_spec (length (np_diff (np_diff (_calculate_velocities ps)))) 0);
    [eexists; reflexivity |].
  destruct (np_mean_fin (np_abs (np_diff (np_diff (_calculate_velocities ps)))))
    as (a & ->).
  - unfold np_abs. intros H. apply (f_equal (@length _)) in H.
    rewrite length_map in H. simpl in H. lia.
  - apply np_abs_fin, np_diff_fin, np_diff_fin.
    eapply Forall_impl; [| apply velocities_nonneg]. apply fin_nonneg_is_fin.
  - simpl. unfold py_max. simpl. rbool; eexists; reflexivity.
Qed.

Lemma smoothness_score_self ps al :
  smoothness_score (_analyze_movement_quality ps ps al) = Fin 1.
Proof.
  unfold _analyze_movement_quality. cbn [smoothness_score].
  destruct (smoothness_fin ps) as (s & ->). simpl. f_equal.
  replace (s + - s) with 0 by lra. rewrite Rabs_R0. lra.
Qed.

(** ** Rounding a whole percentage *)

Lemma round_half_even_IZR z : round_half_even (IZR z) = z.
Proof.
  unfold round_half_even.
  assert (Hf : Int_part (IZR z) = z) by (symmetry; apply Int_part_spec; lra).
  rewrite Hf. rbool; [reflexivity | lra | lra].
Qed.

Lemma percent_one : percent (Fin 1) = Fin 100.
Proof.
  unfold percent. simpl. f_equal.
  replace (1 * 100 * 10) with (IZR 1000) by lra.
  rewrite round_half_even_IZR. lra.
Qed.

(** ** A recording compared with itself *)

Lemma filter_present_in x ps :
  In x (filter_present ps) -> exists p, x = Some p /\ In (Some p) ps.
Proof.
  unfold filter_present. rewrite filter_In. intros (Hin & Hx).
  destruct x as [p |]; [eauto | discriminate].
Qed.

Lemma filter_present_nonempty p ps : In (Some p) ps -> filter_present ps <> [].
Proof.
  intros Hin H. assert (Hf : In (Some p) (filter_present ps))
    by (unfold filter_present; rewrite filter_In; auto).
  rewrite H in Hf. contradiction.
Qed.

Lemma features_nonzero ps focus :
  (forall p, In (Some p) ps -> nonzero_vector (pose_features p)) ->
  Forall nonzero_vector (_poses_to_features (filter_present ps) focus).
Proof.
  intros H. unfold _poses_to_features. apply Forall_map, Forall_forall.
  intros x Hx. destruct (filter_present_in _ _ Hx) as (p & -> & Hp). now apply H.
Qed.

Lemma overall_score_one sims mv :
  pose_similarity sims = Fin 1 -> timing_similarity sims = Fin 1 ->
  angle_similarity sims = Fin 1 -> smoothness_score mv = Fin 1 ->
  _calculate_overall_score sims mv = Fin 1.
Proof.
  intros Hp Ht Ha Hs. unfold _calculate_overall_score. rewrite Hp, Ht, Ha, Hs.
  simpl. f_equal. lra.
Qed.

(** C1.  For a recording with at least one present frame whose feature
    vectors are all non-zero, comparing it with an identical copy gives DTW
    distance 0, normalized distance 0 and alignment quality 1,
    [pose_similarity = 1.0], [timing_similarity = 1.0] and
    [overall_similarity = 100.0]. *)
Theorem self_comparison_perfect (pose_data : PoseData)
    (focus_areas : option (list string)) :
  (exists p, In (Some p) (poses pose_data)) ->
  (forall p, In (Some p) (poses pose_data) -> nonzero_vector (pose_features p)) ->
  let feats := _poses_to_features (filter_present (poses pose_data)) focus_areas in
  let al := _dtw_align feats feats in
  exists rep sims,
    compare_videos pose_data pose_data focus_areas = Ok (FullReport rep) /\
    _calculate_similarities feats feats al (timestamps pose_data)
      (timestamps pose_data) = Ok sims /\
    distance al = Fin 0 /\ normalized_distance al = Fin 0 /\
    alignment_quality al = Fin 1 /\
    pose_similarity sims = Fin 1 /\ timing_similarity sims = Fin 1 /\
    overall_similarity rep = Fin 100.
Proof.
  intros (p0 & Hp0) Hnz feats al.
  pose proof (filter_present_nonempty _ _ Hp0) as Hne.
  assert (Hfne : feats <> []).
  { intros H. apply Hne. apply (f_equal (@length _)) in H. unfold feats in H.
    rewrite poses_to_features_count in H. now apply length_zero_iff_nil. }
  pose proof (poses_to_features_length (filter_present (poses pose_data)) focus_areas)
    as Hw. fold feats in Hw.
  pose proof (features_nonzero _ focus_areas Hnz) as Hu. fold feats in Hu.
  destruct (compare_videos_report pose_data pose_data focus_areas Hne Hne)
    as (sims & fb & Hsims & _ & Hrep). fold feats al in Hsims, Hrep.
  destruct (self_similarities feats feature_length (timestamps pose_data)
              (timestamps pose_data) Hfne Hw Hu) as (scores & Hself).
  fold al in Hself. rewrite Hself in Hsims. injection Hsims as <-.
  destruct (self_alignment feats feature_length Hfne Hw) as (pa & Hal & _).
  fold al in Hal.
  eexists. eexists. split; [exact Hrep |]. split; [exact Hself |].
  rewrite Hal. cbn [distance normalized_distance alignment_quality pose_similarity
                    timing_similarity overall_similarity].
  repeat (split; [reflexivity |]).
  rewrite overall_score_one; try reflexivity; [apply percent_one |].
  rewrite <- Hal. apply smoothness_score_self.
Qed.

Lemma self_comparison_perfect_witness :
  (exists p, In (Some p) (poses single_data)) /\
  (forall p, In (Some p) (poses single_data) -> nonzero_vector (pose_features p)) /\
  exists rep sims,
    compare_videos single_data single_data None = Ok (FullReport rep) /\
    _calculate_similarities
      (_poses_to_features (filter_present (poses single_data)) None)
      (_poses_to_features (filter_present (poses single_data)) None)
      (_dtw_align (_poses_to_features (filter_present (poses single_data)) None)
                  (_poses_to_features (filter_present (poses single_data)) None))
      (timestamps single_data) (timestamps single_data) = Ok sims /\
    pose_similarity sims = Fin 1 /\ timing_similarity sims = Fin 1 /\
    overall_similarity rep = Fin 100.
Proof.
  assert (H1 : exists p, In (Some p) (poses single_data))
    by (exists single_pose; now left).
  assert (H2 : forall p, In (Some p) (poses single_data) ->
                         nonzero_vector (pose_features p)).
  { intros p [Hp | []]. injection Hp as <-. exists 1. split; [now left | lra]. }
  split; [exact H1 |]. split; [exact H2 |].
  destruct (self_comparison_perfect single_data None H1 H2)
    as (rep & sims & Hrep & Hsims & _ & _ & _ & Hp & Ht & Ho).
  exists rep, sims. auto.
Defined.

(** * Further properties of the engine *)

(** ** The aligner: range, length and coverage of the path *)

Lemma backtrack_length_le M : forall k i j,
  (i + j <= k)%nat -> (length (backtrack M (S i) (S j)) <= S (i + j))%nat.
Proof.
  induction k as [| k IH]; intros i j Hk; rewrite backtrack_S; cbn [length].
  - assert (i = 0%nat) by lia. assert (j = 0%nat) by lia. subst.
    destruct (choose M 1 1); simpl; lia.
  - destruct (choose M (S i) (S j)).
    + destruct i as [| i]; [rewrite backtrack_0_l; simpl; lia |].
      specialize (IH i j ltac:(lia)). lia.
    + destruct j as [| j]; [rewrite backtrack_0_r; simpl; lia |].
      specialize (IH i j ltac:(lia)). lia.
    + destruct i as [| i]; [rewrite backtrack_0_l; simpl; lia |].
      destruct j as [| j]; [rewrite backtrack_0_r; simpl; lia |].
      specialize (IH i j ltac:(lia)). lia.
Qed.

Section PathCoverage.

Variable m : nat.
Variable dist : list (list pyfloat).
Hypothesis dist_width : forall i, (i < length dist)%nat -> length (nth i dist []) = m.
Hypothesis dist_cost : forall i j,
  (i < length dist)%nat -> (j < m)%nat -> fin_nonneg (nth j (nth i dist []) NaN).

Let M := dtw_matrix m dist.

(** The backtracking from an inner cell passes through every row and every
    column up to that cell. *)
Lemma backtrack_covers : forall k i j,
  (i + j <= k)%nat -> (i < length dist)%nat -> (j < m)%nat ->
  (forall a, (a <= i)%nat -> exists b, In (a, b) (backtrack M (S i) (S j))) /\
  (forall b, (b <= j)%nat -> exists a, In (a, b) (backtrack M (S i) (S j))).
Proof.
  induction k as [| k IH]; intros i j Hk Hi Hj.
  - assert (i = 0%nat) by lia. assert (j = 0%nat) by lia. subst.
    rewrite backtrack_S. split; intros x Hx; assert (x = 0%nat) by lia; subst;
      exists 0%nat; now left.
  - rewrite backtrack_S. destruct (choose M (S i) (S j)) eqn:Hc.
    + apply choose_up in Hc; auto. destruct i as [| i]; [lia |].
      destruct (IH i j) as (Hrow & Hcol); try lia. split.
      * intros a Ha. destruct (Nat.eq_dec a (S i)) as [-> | Hne].
        -- exists j. now left.
        -- destruct (Hrow a) as (b & Hb); [lia |]. exists b. now right.
      * intros b Hb. destruct (Hcol b Hb) as (a & Ha). exists a. now right.
    + apply choose_left in Hc; auto. destruct j as [| j]; [lia |].
      destruct (IH i j) as (Hrow & Hcol); try lia. split.
      * intros a Ha. destruct (Hrow a Ha) as (b & Hb). exists b. now right.
      * intros b Hb. destruct (Nat.eq_dec b (S j)) as [-> | Hne].
        -- exists i. now left.
        -- destruct (Hcol b) as (a & Ha); [lia |]. exists a. now right.
    + apply choose_diag in Hc; auto. destruct Hc as [(-> & ->) | (Hi0 & Hj0)].
      * split; intros x Hx; assert (x = 0%nat) by lia; subst; exists 0%nat; now left.
      * destruct i as [| i]; [lia |]. destruct j as [| j]; [lia |].
        destruct (IH i j) as (Hrow & Hcol); try lia. split.
        -- intros a Ha. destruct (Nat.eq_dec a (S i)) as [-> | Hne].
           ++ exists (S j). now left.
           ++ destruct (Hrow a) as (b & Hb); [lia |]. exists b. now right.
        -- intros b Hb. destruct (Nat.eq_dec b (S j)) as [-> | Hne].
           ++ exists (S i). now left.
           ++ destruct (Hcol b) as (a & Ha); [lia |]. exists a. now right.
Qed.

(** It takes at least as many steps as the longer side has frames. *)
Lemma backtrack_length_ge : forall k i j,
  (i + j <= k)%nat -> (i < length dist)%nat -> (j < m)%nat ->
  (S (Nat.max i j) <= length (backtrack M (S i) (S j)))%nat.
Proof.
  induction k as [| k IH]; intros i j Hk Hi Hj; rewrite backtrack_S; cbn [length].
  - assert (i = 0%nat) by lia. assert (j = 0%nat) by lia. subst. simpl. lia.
  - destruct (choose M (S i) (S j)) eqn:Hc.
    + apply choose_up in Hc; auto. destruct i as [| i]; [lia |].
      specialize (IH i j ltac:(lia) ltac:(lia) ltac:(lia)). lia.
    + apply choose_left in Hc; auto. destruct j as [| j]; [lia |].
      specialize (IH i j ltac:(lia) ltac:(lia) ltac:(lia)). lia.
    + apply choose_diag in Hc; auto. destruct Hc as [(-> & ->) | (Hi0 & Hj0)].
      * simpl. lia.
      * destruct i as [| i]; [lia |]. destruct j as [| j]; [lia |].
        specialize (IH i j ltac:(lia) ltac:(lia) ltac:(lia)). lia.
Qed.

End PathCoverage.

Lemma dtw_try_path ex asg a :
  dtw_try ex asg = Ok a ->
  exists dist,
    dist_matrix ex asg = Ok dist /\
    path a = rev (backtrack (dtw_matrix (length asg) dist) (length ex) (length asg)).
Proof.
  unfold dtw_try. intros H. apply bind_ok in H as (dist & Hd & H).
  injection H as <-. exists dist. split; [exact Hd | reflexivity].
Qed.

(** X1.  On the main branch every pair of the path indexes a frame of each
    sequence, and for non-empty sequences of [n] and [m] frames the path has
    between [max(n, m)] and [n + m - 1] pairs. *)
Theorem dtw_path_bounds (example_features assignment_features : list vector)
    (a : Alignment) :
  example_features <> [] -> assignment_features <> [] ->
  dtw_try example_features assignment_features = Ok a ->
  Forall (fun p => (fst p < length example_features)%nat /\
                   (snd p < length assignment_features)%nat) (path a) /\
  (Nat.max (length example_features) (length assignment_features)
   <= length (path a)
   <= length example_features + length assignment_features - 1)%nat.
Proof.
  intros Hex Has Htry. destruct (dtw_try_path _ _ _ Htry) as (dist & Hd & ->).
  pose proof (dist_matrix_length _ _ _ Hd) as Hn.
  destruct example_features as [| u ex]; [congruence |].
  destruct assignment_features as [| v asg]; [congruence |].
  cbn [length] in *. rewrite length_rev. split.
  - apply Forall_rev, Forall_forall. intros p Hp.
    apply (backtrack_in_range _ _ _ _ _ (le_n _) Hp).
  - split.
    + pose proof (backtrack_length_ge (S (length asg)) dist) as Hge.
      specialize (Hge (fun i Hi => dist_matrix_width _ _ _ _ Hd Hi)
                      (fun i j Hi Hj => dist_matrix_cost _ _ _ _ _ Hd Hi Hj)
                      (length ex + length asg)%nat (length ex) (length asg)).
      lia.
    + pose proof (backtrack_length_le (dtw_matrix (S (length asg)) dist)
                    (length ex + length asg) (length ex) (length asg) (le_n _)).
      lia.
Qed.

Lemma dtw_path_bounds_witness :
  exists a, dtw_try [[0]; [1]] [[0]] = Ok a /\ (2 <= length (path a) <= 2)%nat.
Proof.
  eexists. split; [reflexivity |].
  exact (proj2 (dtw_path_bounds [[0]; [1]] [[0]] _ ltac:(discriminate)
                  ltac:(discriminate) eq_refl)).
Defined.

(** X2.  On the main branch the path covers both sequences: every frame of
    the example and every frame of the assignment occurs in some pair. *)
Theorem dtw_path_covers (example_features assignment_features : list vector)
    (a : Alignment) :
  dtw_try example_features assignment_features = Ok a ->
  (forall i, (i < length example_features)%nat ->
             assignment_features <> [] -> exists j, In (i, j) (path a)) /\
  (forall j, (j < length assignment_features)%nat ->
             example_features <> [] -> exists i, In (i, j) (path a)).
Proof.
  intros Htry. destruct (dtw_try_path _ _ _ Htry) as (dist & Hd & ->).
  pose proof (dist_matrix_length _ _ _ Hd) as Hn.
  assert (Hcov : forall n m, length example_features = S n ->
            length assignment_features = S m ->
            (forall i, (i <= n)%nat -> exists j,
               In (i, j) (backtrack (dtw_matrix (S m) dist) (S n) (S m))) /\
            (forall j, (j <= m)%nat -> exists i,
               In (i, j) (backtrack (dtw_matrix (S m) dist) (S n) (S m)))).
  { intros n m En Em.
    apply (backtrack_covers (S m) dist) with (k := (n + m)%nat); try lia.
    - intros i Hi. rewrite <- Em. now apply (dist_matrix_width _ _ _ _ Hd).
    - intros i j Hi Hj. apply (dist_matrix_cost _ _ _ _ _ Hd); [exact Hi | lia]. }
  split.
  - intros i Hi Has. destruct example_features as [| u ex]; [simpl in Hi; lia |].
    destruct assignment_features as [| v asg]; [congruence |].
    destruct (Hcov (length ex) (length asg) eq_refl eq_refl) as (Hrow & _).
    destruct (Hrow i) as (j & Hj); [simpl in Hi; lia |].
    exists j. apply in_rev. now rewrite rev_involutive.
  - intros j Hj Hex. destruct assignment_features as [| v asg]; [simpl in Hj; lia |].
    destruct example_features as [| u ex]; [congruence |].
    destruct (Hcov (length ex) (length asg) eq_refl eq_refl) as (_ & Hcol).
    destruct (Hcol j) as (i & Hi); [simpl in Hj; lia |].
    exists i. apply in_rev. now rewrite rev_involutive.
Qed.

Lemma dtw_path_covers_witness :
  exists a, dtw_try [[0]; [1]] [[0]] = Ok a /\ exists j, In (1%nat, j) (path a).
Proof.
  eexists. split; [reflexivity |].
  apply (proj1 (dtw_path_covers [[0]; [1]] [[0]] _ eq_refl)); [simpl; lia | discriminate].
Defined.

(** ** The aligner: distance and quality *)

Lemma dtw_try_distance ex asg a :
  dtw_try ex asg = Ok a ->
  cost_or_inf (distance a) /\
  (ex <> [] -> asg <> [] -> fin_nonneg (distance a)) /\
  normalized_distance a =
    py_min (fdiv (distance a) (Fin (INR (Nat.max (length ex) (length asg) * 10))))
           (Fin 1) /\
  alignment_quality a =
    py_max (Fin 0)
      (fsub (Fin 1)
         (fdiv (distance a) (Fin (INR (Nat.max (length ex) (length asg) * 10))))).
Proof.
  unfold dtw_try. intros H. apply bind_ok in H as (dist & Hd & H).
  injection H as <-. cbn [distance normalized_distance alignment_quality].
  pose proof (dist_matrix_length _ _ _ Hd) as Hn.
  assert (Hw : forall i, (i < length dist)%nat -> length (nth i dist []) = length asg)
    by (intros i Hi; now apply (dist_matrix_width _ _ _ _ Hd)).
  assert (Hc : forall i j, (i < length dist)%nat -> (j < length asg)%nat ->
                           fin_nonneg (nth j (nth i dist []) NaN))
    by (intros i j Hi Hj; now apply (dist_matrix_cost _ _ _ _ _ Hd)).
  split; [apply cell_cost; auto; lia |]. split; [| split; reflexivity].
  intros Hex Has. destruct ex as [| u ex]; [congruence |].
  destruct asg as [| v asg]; [congruence |]. cbn [length] in *.
  apply cell_inner; auto; lia.
Qed.

Lemma alignment_quality_unit (example_features assignment_features : list vector) :
  in_unit (alignment_quality (_dtw_align example_features assignment_features)).
Proof.
  unfold _dtw_align.
  destruct (dtw_try example_features assignment_features) as [a | e] eqn:Htry.
  - destruct (dtw_try_distance _ _ _ Htry) as (Hd & _ & _ & ->).
    set (k := INR (Nat.max (length example_features) (length assignment_features) * 10)).
    assert (Hk : 0 <= k) by apply pos_INR.
    destruct Hd as [-> | (x & -> & Hx)].
    + simpl. rbool; [lra |]. simpl. exists 0. split; [reflexivity | lra].
    + unfold fdiv. rbool.
      * unfold scaled_inf. rbool; unfold py_max; simpl; try (exfalso; lra);
          exists 0; (split; [reflexivity | lra]).
      * assert (0 <= x / k) by (apply Rmult_le_pos; [lra | left; apply Rinv_0_lt_compat; lra]).
        unfold py_max. simpl. rbool; eexists; (split; [reflexivity | lra]).
  - exists 0.5. split; [reflexivity | lra].
Qed.

(** X3.  Whatever the two sequences are, empty ones and the fallback
    included, the alignment quality is a number between 0 and 1. *)
Theorem dtw_quality_unit (example_features assignment_features : list vector) :
  in_unit (alignment_quality (_dtw_align example_features assignment_features)).
Proof. apply alignment_quality_unit. Qed.

(** X4.  For non-empty sequences on the main branch the distance is finite
    and non-negative, the normalized distance is
    [min(distance / (10 max(n, m)), 1)], and the quality is one minus the
    normalized distance. *)
Theorem dtw_distance_normalized (example_features assignment_features : list vector)
    (a : Alignment) :
  example_features <> [] -> assignment_features <> [] ->
  dtw_try example_features assignment_features = Ok a ->
  exists d,
    distance a = Fin d /\ 0 <= d /\
    normalized_distance a =
      Fin (Rmin (d / INR (Nat.max (length example_features)
                                  (length assignment_features) * 10)) 1) /\
    alignment_quality a =
      Fin (1 - Rmin (d / INR (Nat.max (length example_features)
                                      (length assignment_features) * 10)) 1).
Proof.
  intros Hex Has Htry.
  destruct (dtw_try_distance _ _ _ Htry) as (_ & Hd & -> & ->).
  destruct (Hd Hex Has) as (d & -> & Hd0). exists d.
  split; [reflexivity |]. split; [exact Hd0 |].
  set (k := INR (Nat.max (length example_features) (length assignment_features) * 10)).
  assert (Hk : 0 < k).
  { apply lt_0_INR. destruct example_features; [congruence | cbn [length]; lia]. }
  rewrite !fdiv_fin_pos by exact Hk.
  assert (0 <= d / k) by (apply Rmult_le_pos; [lra | left; apply Rinv_0_lt_compat; lra]).
  unfold py_min, py_max, Rmin. simpl.
  destruct (Rle_dec (d / k) 1); rbool; split; f_equal; lra.
Qed.

Lemma dtw_distance_normalized_witness :
  exists a, dtw_try [[0]; [1]] [[0]] = Ok a /\
  exists d,
    distance a = Fin d /\ 0 <= d /\
    normalized_distance a = Fin (Rmin (d / INR (Nat.max 2 1 * 10)) 1) /\
    alignment_quality a = Fin (1 - Rmin (d / INR (Nat.max 2 1 * 10)) 1).
Proof.
  eexists. split; [reflexivity |].
  exact (dtw_distance_normalized [[0]; [1]] [[0]] _ ltac:(discriminate)
           ltac:(discriminate) eq_refl).
Defined.

(** ** The fallback alignment *)

(** X5.  The fallback path has one pair per example frame, in order; when
    the assignment sequence is not empty every pair indexes one of its
    frames, and the assignment index never decreases along the path. *)
Theorem fallback_path_in_range (example_features assignment_features : list vector) :
  assignment_features <> [] ->
  let p := path (dtw_fallback example_features assignment_features) in
  map fst p = seq 0 (length example_features) /\
  Forall (fun q => (snd q < length assignment_features)%nat) p /\
  forall k q1 q2, nth_error p k = Some q1 -> nth_error p (S k) = Some q2 ->
                  (snd q1 <= snd q2)%nat.
Proof.
  intros Has p. subst p. unfold dtw_fallback. cbn [path].
  set (n := length example_features). set (m := length assignment_features).
  assert (Hm : (0 < m)%nat) by (subst m; destruct assignment_features; [congruence | simpl; lia]).
  split; [| split].
  - rewrite map_map. cbn [fst]. apply map_id.
  - apply Forall_map, Forall_forall. intros i Hi. apply in_seq in Hi. cbn [snd].
    apply Nat.Div0.div_lt_upper_bound. nia.
  - intros k q1 q2 H1 H2. rewrite nth_error_map, nth_error_seq in H1, H2.
    destruct (k <? n)%nat; [| discriminate]. destruct (S k <? n)%nat; [| discriminate].
    injection H1 as <-. injection H2 as <-. cbn [snd].
    apply Nat.Div0.div_le_mono. nia.
Qed.

Lemma fallback_path_in_range_witness :
  fallback_assignment <> [] /\
  map fst (path (dtw_fallback fallback_example fallback_assignment)) = seq 0 2 /\
  Forall (fun q => (snd q < 3)%nat)
         (path (dtw_fallback fallback_example fallback_assignment)).
Proof.
  assert (H : fallback_assignment <> []) by discriminate.
  split; [exact H |].
  destruct (fallback_path_in_range fallback_example fallback_assignment H)
    as (H1 & H2 & _).
  split; [exact H1 | exact H2].
Defined.

(** ** The scorer: bounded outputs *)

Lemma score_unit X : in_unit (py_max (Fin 0) (fsub (Fin 1) (np_clip X 0 2))).
Proof.
  destruct X as [x | | |]; simpl; unfold py_max; simpl.
  - assert (H : 0 <= Rmin (Rmax x 0) 2 <= 2).
    { unfold Rmin, Rmax. repeat destruct (Rle_dec _ _); lra. }
    rbool; eexists; (split; [reflexivity | lra]).
  - rbool; eexists; (split; [reflexivity | lra]).
  - rbool; eexists; (split; [reflexivity | lra]).
  - exists 0. split; [reflexivity | lra].
Qed.

Lemma frame_score_unit (ex asg : list vector) p s :
  frame_score ex asg p = Ok s -> in_unit s.
Proof.
  unfold frame_score. destruct p as (i, j).
  destruct ((i <? length ex)%nat && (j <? length asg)%nat).
  - intros H. apply bind_ok in H as (c & Hc & H). injection H as <-.
    unfold cosine in Hc. destruct (length (nth i ex []) =? length (nth j asg []))%nat;
      [| discriminate]. injection Hc as <-. apply score_unit.
  - intros H. injection H as <-. exists 0. split; [reflexivity | lra].
Qed.

Lemma np_sum_unit l :
  Forall in_unit l -> exists s, np_sum l = Fin s /\ 0 <= s <= INR (length l).
Proof.
  induction 1 as [| a l (x & -> & Hx) _ (s & IH & Hs)].
  - exists 0. simpl. split; [reflexivity | lra].
  - exists (x + s). change (np_sum (Fin x :: l)) with (fadd (Fin x) (np_sum l)).
    rewrite IH. split; [reflexivity |]. change (length (Fin x :: l)) with (S (length l)).
    rewrite S_INR. lra.
Qed.

Lemma np_mean_unit l : l <> [] -> Forall in_unit l -> in_unit (np_mean l).
Proof.
  intros Hne H. destruct (np_sum_unit l H) as (s & Hs & Hb). unfold np_mean. rewrite Hs.
  assert (Hpos : 0 < INR (length l))
    by (apply lt_0_INR; destruct l; [congruence | simpl; lia]).
  rewrite fdiv_fin_pos by exact Hpos. eexists. split; [reflexivity |]. split.
  - apply Rmult_le_pos; [lra | left; now apply Rinv_0_lt_compat].
  - apply Rmult_le_reg_r with (INR (length l)); [exact Hpos |].
    unfold Rdiv. rewrite Rmult_assoc, Rinv_l by lra. lra.
Qed.

Lemma angle_diffs_nonneg (ex asg : list vector) pa : forall ds,
  angle_diffs ex asg pa = Ok ds -> Forall fin_nonneg ds.
Proof.
  induction pa as [| (i, j) t IH]; intros ds H; cbn [angle_diffs] in H.
  - injection H as <-. constructor.
  - destruct ((i <? length ex)%nat && (j <? length asg)%nat); [| now apply IH].
    apply bind_ok in H as (d & Hd & H). apply bind_ok in H as (ds' & Ht & H).
    injection H as <-. constructor; [| now apply IH].
    eapply euclidean_nonneg; exact Hd.
Qed.

Lemma angle_similarity_unit (ex asg : list vector) pa a :
  _calculate_angle_similarity ex asg pa = Ok a -> in_unit a.
Proof.
  unfold _calculate_angle_similarity. intros H. apply bind_ok in H as (ds & Hds & H).
  pose proof (angle_diffs_nonneg _ _ _ _ Hds) as Hn.
  destruct ds as [| d t]; injection H as <-; [exists 0; split; [reflexivity | lra] |].
  destruct (np_mean_nonneg _ Hn) as [| (x & -> & Hx)]; [discriminate |].
  rewrite fdiv_fin_pos by lra. unfold py_max. simpl.
  rbool; eexists; (split; [reflexivity | lra]).
Qed.

Lemma scorer_bounds (example_features assignment_features : list vector)
    (al : Alignment) (ts1 ts2 : list R) (sims : Similarities) :
  _calculate_similarities example_features assignment_features al ts1 ts2 = Ok sims ->
  Forall in_unit (frame_scores sims) /\
  in_unit (angle_similarity sims) /\
  ((path al = [] /\ pose_similarity sims = NaN) \/ in_unit (pose_similarity sims)) /\
  timing_similarity sims = alignment_quality al.
Proof.
  unfold _calculate_similarities. intros H.
  apply bind_ok in H as (scores & Hs & H). apply bind_ok in H as (angle & Ha & H).
  injection H as <-. cbn [frame_scores angle_similarity pose_similarity timing_similarity].
  assert (Hu : Forall in_unit scores).
  { eapply mapM_forall; [| exact Hs]. intros p s _. apply frame_score_unit. }
  split; [exact Hu |]. split; [eapply angle_similarity_unit; eauto |].
  split; [| reflexivity].
  destruct (path al) as [| p t] eqn:Hp.
  - left. injection Hs as <-. split; [reflexivity | apply np_mean_nil].
  - right. apply np_mean_unit; [| exact Hu].
    apply mapM_length in Hs. destruct scores; [discriminate | discriminate].
Qed.

(** X6.  Every frame score and the angle similarity lie between 0 and 1,
    and so does the pose similarity unless the path is empty, in which case
    it is [nan]; the timing similarity is the alignment's quality. *)
Theorem similarities_bounded (example_features assignment_features : list vector)
    (al : Alignment) (ts1 ts2 : list R) (sims : Similarities) :
  _calculate_similarities example_features assignment_features al ts1 ts2 = Ok sims ->
  Forall in_unit (frame_scores sims) /\
  in_unit (angle_similarity sims) /\
  ((path al = [] /\ pose_similarity sims = NaN) \/ in_unit (pose_similarity sims)) /\
  timing_similarity sims = alignment_quality al.
Proof. apply scorer_bounds. Qed.

Lemma similarities_bounded_witness :
  exists sims,
    _calculate_similarities [[1]] [[1]] (dtw_fallback [[1]] [[1]]) [] [] = Ok sims /\
    Forall in_unit (frame_scores sims) /\ in_unit (angle_similarity sims).
Proof.
  eexists. split; [reflexivity |].
  destruct (similarities_bounded [[1]] [[1]] (dtw_fallback [[1]] [[1]]) [] [] _ eq_refl)
    as (H1 & H2 & _).
  split; [exact H1 | exact H2].
Defined.

(** ** The movement analysis: velocities and smoothness *)

Lemma velocities_length ps : length (_calculate_velocities ps) = (length ps - 1)%nat.
Proof.
  induction ps as [| prev [| cur t] IH]; try reflexivity.
  change (_calculate_velocities (prev :: cur :: t))
    with (frame_velocity prev cur :: _calculate_velocities (cur :: t)).
  cbn [length] in *. rewrite IH. lia.
Qed.

(** X7.  There is one velocity per transition between consecutive frames,
    and every velocity is a finite, non-negative number. *)
Theorem velocities_shape (ps : list (option Pose)) :
  length (_calculate_velocities ps) = (length ps - 1)%nat /\
  Forall fin_nonneg (_calculate_velocities ps).
Proof. split; [apply velocities_length | apply velocities_nonneg]. Qed.

Lemma np_diff_length l : length (np_diff l) = (length l - 1)%nat.
Proof.
  induction l as [| a [| b t] IH]; try reflexivity.
  change (np_diff (a :: b :: t)) with (fsub b a :: np_diff (b :: t)).
  cbn [length] in *. rewrite IH. lia.
Qed.

Lemma np_abs_nonneg l : Forall is_fin l -> Forall fin_nonneg (np_abs l).
Proof.
  unfold np_abs. intros H. apply Forall_map. eapply Forall_impl; [| exact H].
  intros a (x & ->). simpl. eexists. split; [reflexivity | apply Rabs_pos].
Qed.

Lemma smoothness_in_unit (ps : list (option Pose)) :
  in_unit (_calculate_smoothness ps).
Proof.
  unfold _calculate_smoothness.
  destruct (length (_calculate_velocities ps) <? 2)%nat;
    [exists 0.5; split; [reflexivity | lra] |].
  destruct (Nat.eqb_spec (length (np_diff (np_diff (_calculate_velocities ps)))) 0);
    [exists 0.5; split; [reflexivity | lra] |].
  set (jerks := np_diff (np_diff (_calculate_velocities ps))) in *.
  assert (Hn : Forall fin_nonneg (np_abs jerks)).
  { apply np_abs_nonneg, np_diff_fin, np_diff_fin.
    eapply Forall_impl; [| apply velocities_nonneg]. apply fin_nonneg_is_fin. }
  destruct (np_mean_nonneg _ Hn) as [He | (x & -> & Hx)].
  - apply (f_equal (@length _)) in He. unfold np_abs in He.
    rewrite length_map in He. simpl in He. lia.
  - unfold py_max. simpl. rbool; eexists; (split; [reflexivity | lra]).
Qed.

(** X8.  The smoothness of any sequence lies between 0 and 1. *)
Theorem smoothness_unit (ps : list (option Pose)) :
  in_unit (_calculate_smoothness ps).
Proof. apply smoothness_in_unit. Qed.

(** X9.  With at most three frames there is no jerk sample and the
    smoothness is the default 0.5. *)
Theorem smoothness_default (ps : list (option Pose)) :
  (length ps <= 3)%nat -> _calculate_smoothness ps = Fin 0.5.
Proof.
  intros H. unfold _calculate_smoothness.
  destruct (length (_calculate_velocities ps) <? 2)%nat; [reflexivity |].
  replace (length (np_diff (np_diff (_calculate_velocities ps)))) with 0%nat;
    [reflexivity |].
  rewrite !np_diff_length, velocities_length. lia.
Qed.

Lemma smoothness_default_witness :
  (length [Some single_pose; None; Some single_pose] <= 3)%nat /\
  _calculate_smoothness [Some single_pose; None; Some single_pose] = Fin 0.5.
Proof.
  assert (H : (length [Some single_pose; None; Some single_pose] <= 3)%nat)
    by (simpl; lia).
  split; [exact H | exact (smoothness_default _ H)].
Defined.

Lemma displacement_same c keys : forall acc,
  fst (fold_left (displacement_step c c) keys acc) = fst acc.
Proof.
  induction keys as [| k t IH]; intros acc; [reflexivity |].
  cbn [fold_left]. rewrite IH. unfold displacement_step.
  destruct (lookup k (landmarks c)); [| reflexivity]. cbn [fst].
  replace ((lm_x l - lm_x l) ^ 2 + (lm_y l - lm_y l) ^ 2) with 0 by ring.
  rewrite sqrt_0. lra.
Qed.

Lemma frame_velocity_same f : frame_velocity f f = Fin 0.
Proof.
  unfold frame_velocity. destruct f as [c |]; [| reflexivity].
  destruct (Nat.ltb_spec 0 (snd (fold_left (displacement_step c c) velocity_keys
                                   (0, 0%nat)))) as [Hc |]; [| reflexivity].
  rewrite fdiv_fin_pos by (apply lt_0_INR; exact Hc).
  rewrite displacement_same. cbn [fst]. f_equal. unfold Rdiv. apply Rmult_0_l.
Qed.

(** X10.  A recording that repeats one frame does not move: all its
    velocities are 0. *)
Theorem static_velocities (f : option Pose) (n : nat) :
  Forall (fun v => v = Fin 0) (_calculate_velocities (repeat f n)).
Proof.
  induction n as [| n IH]; [constructor |].
  destruct n as [| n]; [constructor |].
  change (_calculate_velocities (repeat f (S (S n))))
    with (frame_velocity f f :: _calculate_velocities (repeat f (S n))).
  constructor; [apply frame_velocity_same | exact IH].
Qed.

Lemma compare_velocities_sym v1 v2 :
  Forall fin_nonneg v1 -> Forall fin_nonneg v2 ->
  in_unit (_compare_velocities v1 v2) /\
  _compare_velocities v1 v2 = _compare_velocities v2 v1.
Proof.
  intros H1 H2. unfold _compare_velocities.
  destruct v1 as [| a1 t1], v2 as [| a2 t2];
    try (split; [exists 0; split; [reflexivity | lra] | reflexivity]).
  destruct (np_mean_nonneg _ H1) as [| (x & -> & Hx)]; [discriminate |].
  destruct (np_mean_nonneg _ H2) as [| (y & -> & Hy)]; [discriminate |].
  unfold feq, py_min, py_max, fdiv, flt, scaled_inf.
  rbool; try (exfalso; lra); subst; split;
    try (exists 0; split; [reflexivity | lra]); try reflexivity;
    try (f_equal; unfold Rdiv; rewrite ?Rmult_0_l; lra).
  all: try (eexists; split; [reflexivity |]; split;
            [apply Rmult_le_pos; [lra | left; apply Rinv_0_lt_compat; lra]
            | apply Rmult_le_reg_r with y; [lra |];
              unfold Rdiv; rewrite Rmult_assoc, Rinv_l by lra; lra]).
  all: try (eexists; split; [reflexivity |]; split;
            [apply Rmult_le_pos; [lra | left; apply Rinv_0_lt_compat; lra]
            | apply Rmult_le_reg_r with x; [lra |];
              unfold Rdiv; rewrite Rmult_assoc, Rinv_l by lra; lra]).
  all: replace y with x by lra; reflexivity.
Qed.

(** X11.  The velocity similarity of two recordings lies between 0 and 1
    and does not depend on which of the two is the reference. *)
Theorem velocity_similarity_symmetric (ps1 ps2 : list (option Pose)) :
  in_unit (_compare_velocities (_calculate_velocities ps1) (_calculate_velocities ps2)) /\
  _compare_velocities (_calculate_velocities ps1) (_calculate_velocities ps2) =
  _compare_velocities (_calculate_velocities ps2) (_calculate_velocities ps1).
Proof. apply compare_velocities_sym; apply velocities_nonneg. Qed.

(** ** The report: bounded scores *)

Lemma round_half_even_bounds r K :
  0 <= r <= IZR K -> (0 <= round_half_even r <= K)%Z.
Proof.
  intros (H0 & HK). unfold round_half_even.
  destruct (base_Int_part r) as (Hf1 & Hf2).
  assert (Hlo : (0 <= Int_part r)%Z).
  { assert (IZR (-1) < IZR (Int_part r)) by lra. apply lt_IZR in H. lia. }
  assert (Hhi : (Int_part r <= K)%Z) by (apply le_IZR; lra).
  rbool; try lia.
  - assert (IZR (Int_part r) < IZR K) by lra. apply lt_IZR in H. lia.
  - destruct (Z.even (Int_part r)); [lia |].
    assert (IZR (Int_part r) < IZR K) by lra. apply lt_IZR in H. lia.
Qed.

Lemma percent_unit x : in_unit x -> in_percent (percent x).
Proof.
  intros (r & -> & Hr). unfold percent. simpl.
  destruct (round_half_even_bounds (r * 100 * 10) 1000) as (Hlo & Hhi); [lra |].
  apply IZR_le in Hlo, Hhi. eexists. split; [reflexivity | lra].
Qed.

Lemma overall_score_unit sims mv :
  in_unit (pose_similarity sims) -> in_unit (timing_similarity sims) ->
  in_unit (angle_similarity sims) -> in_unit (smoothness_score mv) ->
  in_unit (_calculate_overall_score sims mv).
Proof.
  intros (p & Hp & ?) (t & Ht & ?) (a & Ha & ?) (s & Hs & ?).
  unfold _calculate_overall_score. rewrite Hp, Ht, Ha, Hs. simpl.
  eexists. split; [reflexivity | lra].
Qed.

Lemma smoothness_score_unit ps1 ps2 al :
  in_unit (smoothness_score (_analyze_movement_quality ps1 ps2 al)).
Proof.
  unfold _analyze_movement_quality. cbn [smoothness_score].
  destruct (smoothness_in_unit ps1) as (a & -> & Ha).
  destruct (smoothness_in_unit ps2) as (b & -> & Hb). simpl.
  eexists. split; [reflexivity |]. unfold Rabs. destruct (Rcase_abs _); lra.
Qed.

Lemma dtw_align_path_nonempty (ex asg : list vector) :
  ex <> [] -> asg <> [] -> path (_dtw_align ex asg) <> [].
Proof.
  intros Hex Has. unfold _dtw_align. destruct (dtw_try ex asg) as [a | e] eqn:Htry.
  - destruct (dtw_try_path _ _ _ Htry) as (dist & _ & ->).
    destruct ex; [congruence |]. destruct asg; [congruence |].
    cbn [length]. rewrite backtrack_S. apply rev_cons_nonempty.
  - unfold dtw_fallback. cbn [path]. destruct ex; [congruence | discriminate].
Qed.

Lemma features_nonempty ps focus : ps <> [] -> _poses_to_features ps focus <> [].
Proof. destruct ps; [congruence | discriminate]. Qed.

(** X12.  In every full report the overall similarity and the four entries
    of the breakdown are percentages between 0 and 100. *)
Theorem report_percentages (example_pose_data assignment_pose_data : PoseData)
    (focus_areas : option (list string)) (rep : Report) :
  compare_videos example_pose_data assignment_pose_data focus_areas
  = Ok (FullReport rep) ->
  in_percent (overall_similarity rep) /\
  in_percent (pose_accuracy (similarity_breakdown rep)) /\
  in_percent (timing_accuracy (similarity_breakdown rep)) /\
  in_percent (movement_smoothness (similarity_breakdown rep)) /\
  in_percent (angle_accuracy (similarity_breakdown rep)).
Proof.
  intros H.
  assert (H1 : filter_present (poses example_pose_data) <> []).
  { intros E. unfold compare_videos in H. rewrite E in H. discriminate. }
  assert (H2 : filter_present (poses assignment_pose_data) <> []).
  { intros E. unfold compare_videos in H. rewrite E in H.
    destruct (filter_present (poses example_pose_data)); discriminate. }
  destruct (compare_videos_report _ _ focus_areas H1 H2)
    as (sims & fb & Hsims & _ & Hrep).
  rewrite Hrep in H. injection H as <-.
  cbn [overall_similarity similarity_breakdown pose_accuracy timing_accuracy
       movement_smoothness angle_accuracy].
  destruct (scorer_bounds _ _ _ _ _ _ Hsims) as (_ & Ha & Hp & Ht).
  assert (Hp' : in_unit (pose_similarity sims)).
  { destruct Hp as [(He & _) | Hp]; [| exact Hp]. exfalso.
    revert He. apply dtw_align_path_nonempty; now apply features_nonempty. }
  assert (Ht' : in_unit (timing_similarity sims))
    by (rewrite Ht; apply alignment_quality_unit).
  pose proof (smoothness_score_unit (filter_present (poses example_pose_data))
                (filter_present (poses assignment_pose_data))
                (_dtw_align
                   (_poses_to_features (filter_present (poses example_pose_data))
                      focus_areas)
                   (_poses_to_features (filter_present (poses assignment_pose_data))
                      focus_areas))) as Hs.
  repeat split; apply percent_unit; auto. now apply overall_score_unit.
Qed.

Lemma report_percentages_witness :
  exists rep,
    compare_videos single_data single_data None = Ok (FullReport rep) /\
    in_percent (overall_similarity rep).
Proof.
  destruct (compare_videos_report single_data single_data None
              ltac:(discriminate) ltac:(discriminate)) as (sims & fb & _ & _ & Hrep).
  eexists. split; [exact Hrep |].
  exact (proj1 (report_percentages single_data single_data None _ Hrep)).
Defined.

(** ** The feedback list *)

Lemma feedback_shape sims mv ts1 ts2 al fb :
  _generate_feedback_points sims mv ts1 ts2 al = Ok fb ->
  fb = [positive_item] \/
  (fb <> [] /\ Forall (fun item => String.eqb (issue item) "None" = false) fb).
Proof.
  unfold _generate_feedback_points. intros H.
  apply bind_ok in H as (segs & Hsegs & H). apply bind_ok in H as (tempo & Htempo & H).
  assert (Hs : Forall (fun item => String.eqb (issue item) "None" = false) segs).
  { eapply mapM_forall; [| exact Hsegs]. intros s item _ Hi.
    now rewrite (segment_item_issue _ _ Hi). }
  assert (Ht : Forall (fun item => String.eqb (issue item) "None" = false) tempo).
  { unfold tempo_items in Htempo. destruct (is_too_fast mv).
    - apply bind_ok in Htempo as (pct & _ & Ht). injection Ht as <-. now repeat constructor.
    - destruct (is_too_slow mv).
      + apply bind_ok in Htempo as (pct & _ & Ht). injection Ht as <-.
        now repeat constructor.
      + injection Htempo as <-. constructor. }
  assert (Hst : Forall (fun item => String.eqb (issue item) "None" = false)
                       (if is_too_stiff mv then [stiff_item] else [])).
  { destruct (is_too_stiff mv); now repeat constructor. }
  pose proof (proj2 (Forall_app _ _ _) (conj Hs (proj2 (Forall_app _ _ _) (conj Ht Hst))))
    as Hall.
  destruct (segs ++ tempo ++ (if is_too_stiff mv then [stiff_item] else []))%list
    as [| x t] eqn:E; injection H as <-; [now left | right].
  split; [discriminate | exact Hall].
Qed.

(** X13.  The feedback list is never empty, and the positive item with
    issue ["None"] occurs in it only when it is the whole list. *)
Theorem feedback_never_empty (sims : Similarities) (mv : Movement)
    (ts1 ts2 : list R) (al : Alignment) (fb : list FeedbackItem) :
  _generate_feedback_points sims mv ts1 ts2 al = Ok fb ->
  fb <> [] /\ (has_issue "None" fb = true -> fb = [positive_item]).
Proof.
  intros H. destruct (feedback_shape _ _ _ _ _ _ H) as [-> | (Hne & Hall)].
  - split; [discriminate | reflexivity].
  - split; [exact Hne |]. intros Hn. exfalso.
    rewrite has_issue_none in Hn; [discriminate | exact Hall].
Qed.

Lemma feedback_never_empty_witness :
  exists fb,
    _generate_feedback_points clean_similarities clean_movement [] []
      (dtw_fallback [] []) = Ok fb /\ fb <> [].
Proof.
  destruct (feedback_total clean_similarities clean_movement [] [] (dtw_fallback [] []))
    as (fb & Hfb).
  - repeat constructor; eexists; reflexivity.
  - eexists; reflexivity.
  - exists fb. split; [exact Hfb |].
    exact (proj1 (feedback_never_empty _ _ _ _ _ _ Hfb)).
Defined.

(** ** Problem segments *)

Lemma scan_collected pa ts scores : forall st i,
  (i + length scores <= length pa)%nat ->
  collected (scan pa ts st i scores) = (collected st ++ filter low_score scores)%list.
Proof.
  induction scores as [| score t IH]; intros st i Hlen.
  - simpl. now rewrite app_nil_r.
  - cbn [scan filter]. cbn [length] in Hlen. rewrite IH by lia. clear IH.
    destruct st as (segs, cur). unfold scan_step, low_score.
    destruct (flt score (Fin 0.6)).
    + destruct (Nat.ltb_spec i (length pa)); [| lia].
      destruct (nth i pa (0%nat, 0%nat)) as (ex_idx, as_idx).
      destruct cur as [s |]; unfold collected; cbn [fst snd seg_scores];
        now rewrite <- !app_assoc.
    + destruct cur as [s |]; unfold collected; cbn [fst snd]; [| reflexivity].
      rewrite map_app, concat_app. cbn [map concat]. now rewrite !app_nil_r.
Qed.

Lemma scan_step_low pa ts st i score :
  Forall seg_low (fst st) -> (forall s, snd st = Some s -> seg_low s) ->
  Forall seg_low (fst (scan_step pa ts st i score)) /\
  (forall s, snd (scan_step pa ts st i score) = Some s -> seg_low s).
Proof.
  intros Hsegs Hcur. destruct st as (segs, cur). unfold scan_step.
  simpl in Hsegs, Hcur. destruct (flt score (Fin 0.6)) eqn:Hlow.
  - destruct (i <? length pa)%nat; [| now split].
    destruct (nth i pa (0%nat, 0%nat)) as (ex_idx, as_idx).
    destruct cur as [s |]; simpl; (split; [exact Hsegs |]);
      intros s' Hs'; injection Hs' as <-; split; simpl.
    + destruct (seg_scores s); discriminate.
    + apply Forall_app. split; [apply (Hcur s eq_refl) | now constructor].
    + discriminate.
    + now constructor.
  - destruct cur as [s |]; simpl; [| now split]. split; [| discriminate].
    apply Forall_app. split; [exact Hsegs |]. constructor; [now apply Hcur | constructor].
Qed.

Lemma scan_low pa ts scores : forall st i,
  Forall seg_low (fst st) -> (forall s, snd st = Some s -> seg_low s) ->
  Forall seg_low (fst (scan pa ts st i scores)) /\
  (forall s, snd (scan pa ts st i scores) = Some s -> seg_low s).
Proof.
  induction scores as [| score t IH]; intros st i Hsegs Hcur; [now split |].
  cbn [scan]. destruct (scan_step_low pa ts st i score Hsegs Hcur) as (H1 & H2).
  now apply IH.
Qed.

(** X14.  Every problem segment holds at least one score and only scores
    below 0.6; and when the path has a pair for every frame score, the
    segments, read in order, hold exactly the frame scores below 0.6. *)
Theorem problem_segments_hold_low_scores (pa : list (nat * nat)) (ts : list R)
    (scores : list pyfloat) :
  Forall seg_low (problem_segments_of pa ts scores) /\
  ((length scores <= length pa)%nat ->
   concat (map seg_scores (problem_segments_of pa ts scores))
   = filter low_score scores).
Proof.
  unfold problem_segments_of. split.
  - destruct (scan_low pa ts scores ([], None) 0) as (H1 & H2);
      [constructor | discriminate |].
    destruct (scan pa ts ([], None) 0 scores) as (segs, [s |]); cbn [fst snd] in *.
    + apply Forall_app. split; [exact H1 |]. constructor; [now apply H2 | constructor].
    + exact H1.
  - intros Hlen. pose proof (scan_collected pa ts scores ([], None) 0 Hlen) as H.
    unfold collected in H at 2. cbn [fst snd map concat app] in H. rewrite <- H.
    destruct (scan pa ts ([], None) 0 scores) as (segs, [s |]);
      unfold collected; cbn [fst snd].
    + rewrite map_app, concat_app. cbn [map concat]. now rewrite app_nil_r.
    + now rewrite app_nil_r.
Qed.

(** ** Time stamps *)

(** X15.  [_format_time] prints the whole seconds of its argument split
    into minutes and a seconds part between 0 and 59. *)
Theorem format_time_fields (seconds : R) :
  exists minutes secs : Z,
    _format_time seconds = (fmt_02d minutes ++ ":" ++ fmt_02d secs)%string /\
    (0 <= secs <= 59)%Z /\
    (60 * minutes + secs = Int_part seconds)%Z.
Proof.
  exists (Int_part (seconds / 60)),
         (Int_part (seconds - 60 * IZR (Int_part (seconds / 60)))).
  split; [reflexivity |].
  destruct (base_Int_part (seconds / 60)) as (Hq1 & Hq2).
  set (q := Int_part (seconds / 60)) in *.
  assert (Hs : seconds = seconds / 60 * 60) by (field).
  set (r := seconds - 60 * IZR q).
  assert (Hr : 0 <= r < 60) by (unfold r; lra).
  destruct (base_Int_part r) as (Hr1 & Hr2).
  assert (H0 : (0 <= Int_part r)%Z).
  { assert (IZR (-1) < IZR (Int_part r)) by lra. apply lt_IZR in H. lia. }
  assert (H59 : (Int_part r <= 59)%Z).
  { assert (IZR (Int_part r) < IZR 60) by lra. apply lt_IZR in H. lia. }
  split; [lia |].
  apply Int_part_spec. rewrite plus_IZR, mult_IZR. unfold r in *. lra.
Qed.

(** ** The feedback service *)

Lemma fallback_feedback_report (str_of_float : pyfloat -> string) (r : Report) :
  _generate_fallback_feedback str_of_float (FullReport r) =
  Ok (fallback_text str_of_float (overall_similarity r) (feedback_points r)).
Proof.
  unfold _generate_fallback_feedback, fallback_text.
  rewrite append_points_spec, band_line_spec. f_equal.
  now rewrite !append_assoc.
Qed.

(** X16.  On a full report [generate_enhanced_feedback] never raises: it
    returns the answer of the text service, or, when the service raises, the
    deterministic fallback text. *)
Theorem enhanced_feedback_total (str_of_float : pyfloat -> string)
    (build_prompt : pyfloat -> Breakdown -> list FeedbackItem -> string)
    (chat_completion : string -> res string) (r : Report) :
  let answer := chat_completion (build_prompt (overall_similarity r)
                                   (similarity_breakdown r) (feedback_points r)) in
  generate_enhanced_feedback str_of_float build_prompt chat_completion (FullReport r)
  = Ok (match answer with
        | Ok content => content
        | Raise _ => fallback_text str_of_float (overall_similarity r)
                       (feedback_points r)
        end).
Proof.
  intros answer. unfold generate_enhanced_feedback. fold answer.
  destruct answer; [reflexivity | apply fallback_feedback_report].
Qed.

(** X17.  A comparison in which one recording has no present frame cannot
    be turned into feedback text: on the error dictionary both
    [generate_enhanced_feedback] and the fallback raise [KeyError]. *)
Theorem absent_comparison_no_feedback (str_of_float : pyfloat -> string)
    (build_prompt : pyfloat -> Breakdown -> list FeedbackItem -> string)
    (chat_completion : string -> res string)
    (example_pose_data assignment_pose_data : PoseData)
    (focus_areas : option (list string)) :
  all_absent (poses example_pose_data) \/ all_absent (poses assignment_pose_data) ->
  exists result,
    compare_videos example_pose_data assignment_pose_data focus_areas = Ok result /\
    generate_enhanced_feedback str_of_float build_prompt chat_completion result
    = Raise KeyError /\
    _generate_fallback_feedback str_of_float result = Raise KeyError.
Proof.
  intros H. exists (ErrorResult "Could not detect poses in one or both videos" 0).
  split; [| split; reflexivity]. unfold compare_videos.
  destruct H as [H | H]; rewrite (filter_present_absent _ H).
  - reflexivity.
  - now destruct (filter_present (poses example_pose_data)).
Qed.

Lemma absent_comparison_no_feedback_witness :
  (all_absent (poses absent_data) \/ all_absent (poses absent_data)) /\
  exists result,
    compare_videos absent_data absent_data None = Ok result /\
    generate_enhanced_feedback (fun _ => "") (fun _ _ _ => "") (fun _ => Ok "")
      result = Raise KeyError /\
    _generate_fallback_feedback (fun _ => "") result = Raise KeyError.
Proof.
  assert (H : all_absent (poses absent_data)).
  { intros p [Hp | [Hp | []]]; discriminate. }
  split; [now left |].
  apply (absent_comparison_no_feedback (fun _ => "") (fun _ _ _ => "")
           (fun _ => Ok "") absent_data absent_data None). now left.
Defined.

(** ** Frames without tracked landmarks *)

Lemma dot_zero_l u : forall v, Forall (fun x => x = 0) u -> dot u v = 0.
Proof.
  induction u as [| a u IH]; intros [| b v] H; try reflexivity.
  inversion H as [| ? ? Ha Hu]; subst. rewrite dot_cons, IH by exact Hu. ring.
Qed.

Lemma cosine_zero_l u v c :
  Forall (fun x => x = 0) u -> cosine u v = Ok c -> c = NaN.
Proof.
  intros Hu. unfold cosine. destruct (length u =? length v)%nat; [| discriminate].
  intros H. injection H as <-.
  rewrite (dot_zero_l u v Hu), (dot_zero_l u u Hu), Rmult_0_l, sqrt_0.
  unfold fdiv, scaled_inf. rbool; try lra. reflexivity.
Qed.

Lemma nth_zero_vector (ex : list vector) i :
  Forall (Forall (fun x => x = 0)) ex -> Forall (fun x => x = 0) (nth i ex []).
Proof.
  intros H. destruct (Nat.lt_ge_cases i (length ex)) as [Hi | Hi].
  - rewrite Forall_forall in H. apply H. now apply nth_In.
  - rewrite nth_overflow by exact Hi. constructor.
Qed.

(** X18.  When every example vector is the zero vector (frames without any
    tracked landmark), the scorer raises nothing on that account: each frame
    score is 0, and so is the pose similarity of a non-empty path. *)
Theorem zero_features_score_zero (example_features assignment_features : list vector)
    (al : Alignment) (ts1 ts2 : list R) (sims : Similarities) :
  Forall (Forall (fun x => x = 0)) example_features ->
  path al <> [] ->
  _calculate_similarities example_features assignment_features al ts1 ts2 = Ok sims ->
  Forall (fun s => s = Fin 0) (frame_scores sims) /\ pose_similarity sims = Fin 0.
Proof.
  intros Hz Hne. unfold _calculate_similarities. intros H.
  apply bind_ok in H as (scores & Hs & H). apply bind_ok in H as (angle & _ & H).
  injection H as <-. cbn [frame_scores pose_similarity].
  assert (Hall : Forall (fun s => s = Fin 0) scores).
  { eapply mapM_forall; [| exact Hs]. intros (i, j) s _. unfold frame_score.
    destruct ((i <? length example_features)%nat
              && (j <? length assignment_features)%nat).
    - intros Hf. apply bind_ok in Hf as (c & Hc & Hf). injection Hf as <-.
      apply cosine_zero_l in Hc; [| now apply nth_zero_vector]. now subst c.
    - intros Hf. now injection Hf as <-. }
  split; [exact Hall |].
  assert (Hrep : scores = repeat (Fin 0) (length scores)).
  { clear - Hall. induction Hall as [| s l -> _ IH]; simpl; [reflexivity | now f_equal]. }
  rewrite Hrep. apply np_mean_repeat. rewrite (mapM_length _ _ _ Hs).
  destruct (path al); [congruence | simpl; lia].
Qed.

Lemma zero_features_score_zero_witness :
  exists sims,
    _calculate_similarities [[0; 0]] [[1; 2]] (dtw_fallback [[0; 0]] [[1; 2]]) [] []
    = Ok sims /\
    Forall (fun s => s = Fin 0) (frame_scores sims) /\ pose_similarity sims = Fin 0.
Proof.
  eexists. split; [reflexivity |].
  apply (zero_features_score_zero [[0; 0]] [[1; 2]] (dtw_fallback [[0; 0]] [[1; 2]])
           [] [] _); [repeat constructor | discriminate | reflexivity].
Defined.

(** ** The pose extraction service: joint angles *)

Lemma calculate_angle_range p1 p2 p3 : 0 <= calculate_angle p1 p2 p3 <= 180.
Proof.
  unfold calculate_angle. set (c := Rmin _ 1).
  destruct (acos_bound c) as (H0 & H1). pose proof PI_RGT_0 as Hpi.
  assert (Hk : 0 < 180 / PI) by (apply Rdiv_lt_0_compat; lra).
  split.
  - apply Rmult_le_pos; lra.
  - replace 180 with (PI * (180 / PI)) at 2 by (field; lra).
    apply Rmult_le_compat_r; lra.
Qed.

(** X19.  Every joint angle [_calculate_joint_angles] stores is a number of
    degrees between 0 and 180, and it is stored only for a joint whose three
    landmarks are all present. *)
Theorem joint_angles_in_range (keypoints : list (string * Landmark)) :
  Forall (fun e => exists a, snd e = Some a /\ 0 <= a <= 180 /\
                   exists l1 l2 l3, In (fst e, (l1, l2, l3)) joint_table /\
                     lookup l1 keypoints <> None /\ lookup l2 keypoints <> None /\
                     lookup l3 keypoints <> None)
         (_calculate_joint_angles keypoints).
Proof.
  unfold _calculate_joint_angles. apply Forall_forall. intros e He.
  apply in_flat_map in He as ((joint & (a & b) & c) & Hj & He).
  destruct (lookup a keypoints) as [p1 |] eqn:E1; [| contradiction].
  destruct (lookup b keypoints) as [p2 |] eqn:E2; [| contradiction].
  destruct (lookup c keypoints) as [p3 |] eqn:E3; [| contradiction].
  destruct He as [<- | []]. cbn [fst snd]. eexists. split; [reflexivity |].
  split; [apply calculate_angle_range |]. exists a, b, c.
  rewrite E1, E2, E3. repeat split; try discriminate. exact Hj.
Qed.

(** X20.  A degenerate joint, whose first point coincides with the vertex,
    is given the angle 90 degrees: the [1e-6] in the denominator turns
    [0/0] into 0. *)
Theorem degenerate_angle_is_right (p1 p2 p3 : Landmark) :
  lm_x p1 = lm_x p2 -> lm_y p1 = lm_y p2 -> calculate_angle p1 p2 p3 = 90.
Proof.
  intros Hx Hy. unfold calculate_angle. rewrite Hx, Hy.
  replace ((lm_x p2 - lm_x p2) * (lm_x p3 - lm_x p2)
           + (lm_y p2 - lm_y p2) * (lm_y p3 - lm_y p2)) with 0 by ring.
  unfold Rdiv at 1. rewrite Rmult_0_l.
  replace (Rmin (Rmax 0 (-1)) 1) with 0
    by (unfold Rmin, Rmax; repeat destruct (Rle_dec _ _); lra).
  rewrite acos_0. pose proof PI_RGT_0. field. lra.
Qed.

Lemma degenerate_angle_is_right_witness :
  calculate_angle
    {| lm_x := 1; lm_y := 1; lm_z := 0; lm_visibility := 1 |}
    {| lm_x := 1; lm_y := 1; lm_z := 0; lm_visibility := 1 |}
    {| lm_x := 0; lm_y := 1; lm_z := 0; lm_visibility := 1 |} = 90.
Proof. apply degenerate_angle_is_right; reflexivity. Defined.

(** ** The pose extraction service: focus areas *)

Lemma area_parts_legs a :
  area_parts (if String.eqb a "legs" then "lower_body" else a) = area_parts a.
Proof.
  destruct (String.eqb_spec a "legs") as [-> | Hne]; reflexivity.
Qed.

Lemma full_body_legs a :
  String.eqb "full_body" (if String.eqb a "legs" then "lower_body" else a)
  = String.eqb "full_body" a.
Proof.
  destruct (String.eqb_spec a "legs") as [-> | Hne]; reflexivity.
Qed.

(** X21.  The focus areas ["legs"] and ["lower_body"] select the same
    landmarks: writing one for the other never changes [_is_in_focus]. *)
Theorem focus_legs_is_lower_body (landmark_name : string) (areas : list string) :
  _is_in_focus landmark_name
    (Some (map (fun a => if String.eqb a "legs" then "lower_body" else a) areas))
  = _is_in_focus landmark_name (Some areas).
Proof.
  unfold _is_in_focus. destruct areas as [| a t]; [reflexivity |].
  set (f := fun a => if String.eqb a "legs" then "lower_body" else a).
  change (map f (a :: t)) with (f a :: map f t).
  assert (H1 : forall l, existsb (String.eqb "full_body") (map f l)
                         = existsb (String.eqb "full_body") l).
  { induction l as [| x l IH]; [reflexivity |]. cbn [map existsb].
    unfold f at 1. now rewrite full_body_legs, IH. }
  assert (H2 : forall l,
             existsb (fun area => existsb (fun part => contains part landmark_name)
                                          (area_parts area)) (map f l)
             = existsb (fun area => existsb (fun part => contains part landmark_name)
                                            (area_parts area)) l).
  { induction l as [| x l IH]; [reflexivity |]. cbn [map existsb].
    unfold f at 1. now rewrite area_parts_legs, IH. }
  change (f a :: map f t) with (map f (a :: t)). now rewrite H1, H2.
Qed.

(** X22.  A focus list that names one unknown area puts no landmark in
    focus, so nothing is extracted for any frame. *)
Theorem unknown_focus_extracts_nothing (area : string) (detected : list Landmark) :
  ~ In area ["full_body"; "upper_body"; "lower_body"; "arms"; "legs"] ->
  (forall name, _is_in_focus name (Some [area]) = false) /\
  landmarks (_extract_keypoints detected (Some [area])) = [].
Proof.
  intros Hnot.
  assert (Hf : String.eqb "full_body" area = false)
    by (apply String.eqb_neq; intros E; apply Hnot; simpl; auto).
  assert (Hp : area_parts area = []).
  { unfold area_parts.
    destruct (String.eqb_spec area "upper_body"); [subst; exfalso; apply Hnot; simpl; auto 8 |].
    destruct (String.eqb_spec area "lower_body"); [subst; exfalso; apply Hnot; simpl; auto 8 |].
    destruct (String.eqb_spec area "arms"); [subst; exfalso; apply Hnot; simpl; auto 8 |].
    destruct (String.eqb_spec area "legs"); [subst; exfalso; apply Hnot; simpl; auto 8 |].
    reflexivity. }
  assert (H : forall name, _is_in_focus name (Some [area]) = false).
  { intros name. unfold _is_in_focus. cbn [existsb]. now rewrite Hf, Hp. }
  split; [exact H |]. unfold _extract_keypoints, keypoints_of. cbn [landmarks].
  induction (combine landmark_names detected) as [| e l IH]; [reflexivity |].
  cbn [flat_map]. rewrite IH, H. reflexivity.
Qed.

Lemma unknown_focus_extracts_nothing_witness :
  ~ In "torso" ["full_body"; "upper_body"; "lower_body"; "arms"; "legs"] /\
  landmarks (_extract_keypoints
               [{| lm_x := 1; lm_y := 1; lm_z := 0; lm_visibility := 1 |}]
               (Some ["torso"])) = [].
Proof.
  assert (H : ~ In "torso" ["full_body"; "upper_body"; "lower_body"; "arms"; "legs"]).
  { intros [E | [E | [E | [E | [E | []]]]]]; discriminate. }
  split; [exact H |].
  exact (proj2 (unknown_focus_extracts_nothing "torso" _ H)).
Defined.

(** ** The pose extraction service: keypoints and frames *)

(** X23.  The extracted keypoints are named by position in the landmark
    vocabulary: there are at most 33 of them and at most one per detected
    landmark, every name is one of the 33, and with a focus list given every
    name is in focus. *)
Theorem keypoints_named (detected : list Landmark) (focus_areas : option (list string)) :
  let kps := landmarks (_extract_keypoints detected focus_areas) in
  (length kps <= Nat.min 33 (length detected))%nat /\
  Forall (fun e => In (fst e) landmark_names /\
                   _is_in_focus (fst e) focus_areas = true) kps.
Proof.
  unfold _extract_keypoints, keypoints_of. cbn [landmarks].
  assert (Hlen : length (combine landmark_names detected) = Nat.min 33 (length detected))
    by (rewrite length_combine; reflexivity).
  rewrite <- Hlen.
  assert (Hin : Forall (fun e : string * Landmark => In (fst e) landmark_names)
                       (combine landmark_names detected)).
  { apply Forall_forall. intros (name, lm) He. eapply in_combine_l; exact He. }
  clear Hlen. induction Hin as [| e l He _ (IH1 & IH2)]; [split; [simpl; lia | constructor] |].
  cbn [flat_map length].
  destruct (focus_given focus_areas && negb (_is_in_focus (fst e) focus_areas)) eqn:Hf.
  - cbn [app]. split; [lia | exact IH2].
  - cbn [app length]. split; [lia |]. constructor; [| exact IH2].
    split; [exact He |]. apply andb_false_iff in Hf as [Hf | Hf].
    + unfold _is_in_focus. now destruct focus_areas as [[| a t] |].
    + now apply negb_false_iff in Hf.
Qed.

Lemma extract_frames_spec fps focus frames : forall i ps ns ts,
  extract_frames fps focus i frames = Some (ps, ns, ts) ->
  length ps = length frames /\
  ns = seq i (length frames) /\
  ts = map (fun k => INR k / fps) (seq i (length frames)).
Proof.
  induction frames as [| frame rest IH]; intros i ps ns ts H; cbn [extract_frames] in H.
  - injection H as <- <- <-. auto.
  - destruct (Reqb fps 0); [discriminate |].
    destruct (extract_frames fps focus (S i) rest) as [((ps', ns'), ts') |] eqn:E;
      [| discriminate].
    injection H as <- <- <-. destruct (IH _ _ _ _ E) as (H1 & H2 & H3).
    subst ns' ts'. cbn [length seq map]. rewrite H1. auto.
Qed.

(** X24.  The extracted pose data is index-aligned: there is one pose, one
    frame number and one time stamp per frame read, the frame numbers count
    from 0, and the time stamp of frame [k] is [k / fps]. *)
Theorem extraction_index_aligned (fps : R) (frame_count : nat)
    (frames : list (option (list Landmark))) (focus_areas : option (list string))
    (pd : PoseData) :
  extract_poses_from_video fps frame_count frames focus_areas = Some pd ->
  length (poses pd) = length frames /\
  frame_numbers pd = seq 0 (length frames) /\
  timestamps pd = map (fun k => INR k / fps) (seq 0 (length frames)).
Proof.
  unfold extract_poses_from_video.
  destruct (extract_frames fps focus_areas 0 frames) as [((ps, ns), ts) |] eqn:E;
    [| discriminate].
  intros H. injection H as <-. cbn [poses frame_numbers timestamps].
  exact (extract_frames_spec _ _ _ _ _ _ _ E).
Qed.

Lemma extraction_index_aligned_witness :
  exists pd,
    extract_poses_from_video 1 2 [None; None] None = Some pd /\
    length (poses pd) = 2%nat /\ frame_numbers pd = [0; 1]%nat.
Proof.
  assert (E : Reqb 1 0 = false) by (apply Reqb_false; lra).
  eexists. split.
  - unfold extract_poses_from_video, extract_frames. rewrite E. reflexivity.
  - assert (H : extract_poses_from_video 1 2 [None; None] None = Some
       {| poses := [None; None]; frame_numbers := [0; 1]%nat;
          timestamps := [INR 0 / 1; INR 1 / 1]; fps := 1; total_frames := 2;
          duration := if Rltb 0 1 then INR 2 / 1 else 0 |})
      by (unfold extract_poses_from_video, extract_frames; rewrite E; reflexivity).
    destruct (extraction_index_aligned 1 2 [None; None] None _ H) as (H1 & H2 & _).
    split; [exact H1 | exact H2].
Defined.

Lemma extract_frames_none fps focus frames : forall i,
  extract_frames fps focus i frames = None <-> (fps = 0 /\ frames <> []).
Proof.
  induction frames as [| frame rest IH]; intros i; cbn [extract_frames].
  - split; [discriminate | intros (_ & H); congruence].
  - destruct (Reqb fps 0) eqn:E.
    + apply Reqb_true in E. split; [intros _; split; [exact E | discriminate] | reflexivity].
    + apply Reqb_false in E. split.
      * destruct (extract_frames fps focus (S i) rest) as [((ps, ns), ts) |] eqn:E';
          [discriminate |]. intros _. apply IH in E' as (E0 & _). contradiction.
      * intros (E0 & _). contradiction.
Qed.

(** X25.  The extraction raises exactly when the capture reports 0 frames
    per second and still delivers a frame: [frame_idx / fps] divides by zero,
    although the duration is guarded against [fps = 0]. *)
Theorem extraction_raises_iff (fps : R) (frame_count : nat)
    (frames : list (option (list Landmark))) (focus_areas : option (list string)) :
  extract_poses_from_video fps frame_count frames focus_areas = None
  <-> (fps = 0 /\ frames <> []).
Proof.
  unfold extract_poses_from_video. rewrite <- (extract_frames_none fps focus_areas frames 0).
  destruct (extract_frames fps focus_areas 0 frames) as [((ps, ns), ts) |];
    split; intros H; try reflexivity; discriminate.
Qed.

(** ** Time stamps of the aligned frames *)

Lemma align_path_example_range (ex asg : list vector) :
  Forall (fun p => (fst p < length ex)%nat) (path (_dtw_align ex asg)).
Proof.
  unfold _dtw_align. destruct (dtw_try ex asg) as [a | e] eqn:Htry.
  - destruct (dtw_try_path _ _ _ Htry) as (dist & _ & ->).
    apply Forall_rev, Forall_forall. intros p Hp.
    apply (backtrack_in_range _ _ _ _ _ (le_n _) Hp).
  - unfold dtw_fallback. cbn [path]. apply Forall_map, Forall_forall.
    intros i Hi. apply in_seq in Hi. cbn [fst]. lia.
Qed.

(** X26.  When the example data has one time stamp per frame, every pair of
    the report's alignment path indexes an existing time stamp, so the
    synthesizer's default [0] is never used. *)
Theorem path_within_timestamps (example_pose_data assignment_pose_data : PoseData)
    (focus_areas : option (list string)) (rep : Report) :
  length (timestamps example_pose_data) = length (poses example_pose_data) ->
  compare_videos example_pose_data assignment_pose_data focus_areas
  = Ok (FullReport rep) ->
  Forall (fun p => (fst p <? length (timestamps example_pose_data))%nat = true)
         (path (alignment rep)).
Proof.
  intros Hts H.
  assert (H1 : filter_present (poses example_pose_data) <> []).
  { intros E. unfold compare_videos in H. rewrite E in H. discriminate. }
  assert (H2 : filter_present (poses assignment_pose_data) <> []).
  { intros E. unfold compare_videos in H. rewrite E in H.
    destruct (filter_present (poses example_pose_data)); discriminate. }
  destruct (compare_videos_report _ _ focus_areas H1 H2) as (sims & fb & _ & _ & Hrep).
  rewrite Hrep in H. injection H as <-. cbn [alignment].
  eapply Forall_impl; [| apply align_path_example_range].
  intros p Hp. apply Nat.ltb_lt. rewrite poses_to_features_count in Hp.
  pose proof (filter_length_le (fun p => match p with Some _ => true | None => false end)
                (poses example_pose_data)) as Hle.
  unfold filter_present in Hp. lia.
Qed.

Lemma path_within_timestamps_witness :
  length (timestamps single_data) = length (poses single_data) /\
  exists rep,
    compare_videos single_data single_data None = Ok (FullReport rep) /\
    Forall (fun p => (fst p <? length (timestamps single_data))%nat = true)
           (path (alignment rep)).
Proof.
  split; [reflexivity |].
  destruct (compare_videos_report single_data single_data None
              ltac:(discriminate) ltac:(discriminate)) as (sims & fb & _ & _ & Hrep).
  eexists. split; [exact Hrep |].
  exact (path_within_timestamps single_data single_data None _ eq_refl Hrep).
Defined.

(** ** The aligner: symmetry of the distance *)

Lemma sqdist_sym u : forall v, sqdist u v = sqdist v u.
Proof.
  induction u as [| a u IH]; intros [| b v];
    rewrite ?sqdist_nil_l, ?sqdist_nil_r, ?sqdist_cons; try reflexivity.
  rewrite IH. ring.
Qed.

Lemma euclidean_sym u v : euclidean u v = euclidean v u.
Proof.
  unfold euclidean, broadcast. rewrite (Nat.eqb_sym (length v) (length u)).
  destruct (Nat.eqb_spec (length u) (length v)) as [E | E];
    [now rewrite sqdist_sym |].
  destruct (Nat.eqb_spec (length u) 1) as [Eu | Eu],
           (Nat.eqb_spec (length v) 1) as [Ev | Ev];
    try reflexivity; try lia; now rewrite sqdist_sym.
Qed.

Lemma py_min_comm a b : cost_or_inf a -> cost_or_inf b -> py_min a b = py_min b a.
Proof.
  intros [-> | (x & -> & Hx)] [-> | (y & -> & Hy)]; unfold py_min; simpl;
    try reflexivity.
  rbool; try reflexivity; try (exfalso; lra). f_equal. lra.
Qed.

Lemma py_min3_swap a b c :
  cost_or_inf a -> cost_or_inf b -> py_min3 a b c = py_min3 b a c.
Proof. intros Ha Hb. unfold py_min3. now rewrite (py_min_comm a b). Qed.

Lemma cell_transpose (n m : nat) (D D' : list (list pyfloat)) :
  length D = n -> length D' = m ->
  (forall i, (i < n)%nat -> length (nth i D []) = m) ->
  (forall j, (j < m)%nat -> length (nth j D' []) = n) ->
  (forall i j, (i < n)%nat -> (j < m)%nat -> fin_nonneg (nth j (nth i D []) NaN)) ->
  (forall i j, (i < n)%nat -> (j < m)%nat ->
               nth i (nth j D' []) NaN = nth j (nth i D []) NaN) ->
  forall k i j, (i + j <= k)%nat -> (i <= n)%nat -> (j <= m)%nat ->
  cell (dtw_matrix n D') j i = cell (dtw_matrix m D) i j.
Proof.
  intros Hn Hm Hw Hw' Hc Ht. subst n m.
  induction k as [| k IH]; intros i j Hk Hi Hj.
  - assert (i = 0%nat) by lia. assert (j = 0%nat) by lia. subst. reflexivity.
  - destruct i as [| i], j as [| j].
    + reflexivity.
    + rewrite cell_top, cell_side by lia. reflexivity.
    + rewrite cell_top, cell_side by lia. reflexivity.
    + rewrite (cell_rec (length D) D' Hw') by lia.
      rewrite (cell_rec (length D') D Hw) by lia.
      rewrite Ht by lia. rewrite !IH by lia. f_equal.
      apply py_min3_swap; apply (cell_cost (length D') D Hw Hc); lia.
Qed.

(** X27.  The alignment does not depend on which recording is called the
    example as far as its numbers go: when the dynamic programme runs in both
    directions, distance, normalized distance and quality agree. *)
Theorem dtw_distance_symmetric (example_features assignment_features : list vector)
    (a b : Alignment) :
  dtw_try example_features assignment_features = Ok a ->
  dtw_try assignment_features example_features = Ok b ->
  distance a = distance b /\
  normalized_distance a = normalized_distance b /\
  alignment_quality a = alignment_quality b.
Proof.
  unfold dtw_try. intros Ha Hb.
  apply bind_ok in Ha as (D & HD & Ha). apply bind_ok in Hb as (D' & HD' & Hb).
  injection Ha as <-. injection Hb as <-.
  cbn [distance normalized_distance alignment_quality].
  set (n := length example_features). set (m := length assignment_features).
  assert (Hcell : cell (dtw_matrix n D') m n = cell (dtw_matrix m D) n m).
  { pose proof (dist_matrix_length _ _ _ HD) as Hn.
    pose proof (dist_matrix_length _ _ _ HD') as Hm.
    apply (cell_transpose n m D D') with (k := (n + m)%nat); auto; try lia.
    - intros i Hi. apply (dist_matrix_width _ _ _ _ HD). fold n in Hn. lia.
    - intros j Hj. apply (dist_matrix_width _ _ _ _ HD'). fold m in Hm. lia.
    - intros i j Hi Hj. apply (dist_matrix_cost _ _ _ _ _ HD); fold n in Hn; fold m; lia.
    - intros i j Hi Hj.
      pose proof (dist_matrix_cell _ _ _ i j HD) as H1. fold n in Hn.
      pose proof (dist_matrix_cell _ _ _ j i HD') as H2. fold m in Hm.
      specialize (H1 ltac:(lia) ltac:(lia)). specialize (H2 ltac:(lia) ltac:(lia)).
      rewrite euclidean_sym, H1 in H2. now injection H2. }
  rewrite Hcell, (Nat.max_comm m n). auto.
Qed.

Lemma dtw_distance_symmetric_witness :
  exists a b,
    dtw_try [[0]; [1]] [[0]] = Ok a /\ dtw_try [[0]] [[0]; [1]] = Ok b /\
    distance a = distance b.
Proof.
  eexists. eexists. split; [reflexivity |]. split; [reflexivity |].
  exact (proj1 (dtw_distance_symmetric [[0]; [1]] [[0]] _ _ eq_refl eq_refl)).
Defined.

(** ** The feature encoder: the order of the dictionary does not matter *)

Lemma key_lt_trans e1 e2 e3 : key_lt e1 e2 -> key_lt e2 e3 -> key_lt e1 e3.
Proof.
  unfold key_lt. intros H1 H2.
  destruct String_as_OT.lt_strorder as [_ Htr]. exact (Htr _ _ _ H1 H2).
Qed.

Lemma key_lt_irrefl e : ~ key_lt e e.
Proof.
  unfold key_lt. destruct String_as_OT.lt_strorder as [Hirr _]. exact (Hirr (fst e)).
Qed.

Lemma leb_true_cases a b :
  String.leb a b = true -> a = b \/ String.compare a b = Lt.
Proof.
  unfold String.leb. destruct (String.compare a b) eqn:E; intros H.
  - left. now apply String.compare_eq_iff.
  - now right.
  - discriminate.
Qed.

Lemma leb_false_gt a b : String.leb a b = false -> String.compare b a = Lt.
Proof.
  unfold String.leb. rewrite (String.compare_antisym b a).
  destruct (String.compare a b); intros H; try discriminate. reflexivity.
Qed.

Lemma insert_sorted_perm e l : Permutation (insert_sorted e l) (e :: l).
Proof.
  induction l as [| h t IH]; cbn [insert_sorted]; [reflexivity |].
  destruct (String.leb (fst e) (fst h)); [reflexivity |].
  rewrite IH. apply perm_swap.
Qed.

Lemma insert_sorted_sorted e l :
  StronglySorted key_lt l -> ~ In (fst e) (map fst l) ->
  StronglySorted key_lt (insert_sorted e l).
Proof.
  induction 1 as [| h t Ht IH Hh]; intros Hnot; cbn [insert_sorted].
  - constructor; constructor.
  - destruct (String.leb (fst e) (fst h)) eqn:E.
    + assert (Hlt : key_lt e h).
      { destruct (leb_true_cases _ _ E) as [Heq | Hlt]; [| exact Hlt].
        exfalso. apply Hnot. left. now symmetry. }
      constructor; [now constructor |]. constructor; [exact Hlt |].
      eapply Forall_impl; [| exact Hh]. intros x Hx. eapply key_lt_trans; eauto.
    + constructor.
      * apply IH. intros Hin. apply Hnot. now right.
      * apply (Permutation_Forall (Permutation_sym (insert_sorted_perm e t))).
        constructor; [| exact Hh]. apply leb_false_gt in E. exact E.
Qed.

Lemma sorted_items_perm l : Permutation (sorted_items l) l.
Proof.
  unfold sorted_items. induction l as [| e t IH]; cbn [fold_right]; [reflexivity |].
  rewrite insert_sorted_perm. now constructor.
Qed.

Lemma sorted_items_sorted l :
  NoDup (map fst l) -> StronglySorted key_lt (sorted_items l).
Proof.
  unfold sorted_items. induction l as [| e t IH]; cbn [fold_right map]; intros Hnd.
  - constructor.
  - inversion Hnd as [| ? ? Hnot Hnd']; subst. apply insert_sorted_sorted; [now apply IH |].
    intros Hin. apply Hnot. revert Hin.
    apply Permutation_in, Permutation_map, sorted_items_perm.
Qed.

(** Two lists sorted by a strict order that are permutations of each other
    are equal. *)
Lemma sorted_unique l1 : forall l2,
  StronglySorted key_lt l1 -> StronglySorted key_lt l2 -> Permutation l1 l2 -> l1 = l2.
Proof.
  induction l1 as [| a t1 IH]; intros l2 H1 H2 Hp.
  - now apply Permutation_nil in Hp.
  - destruct l2 as [| b t2]; [symmetry in Hp; now apply Permutation_nil in Hp |].
    apply StronglySorted_inv in H1 as (Ht1 & Ha). apply StronglySorted_inv in H2 as (Ht2 & Hb).
    assert (Hab : a = b).
    { assert (Hain : In a (b :: t2)) by (eapply Permutation_in; [exact Hp | now left]).
      assert (Hbin : In b (a :: t1))
        by (eapply Permutation_in; [symmetry; exact Hp | now left]).
      destruct Hain as [-> | Hain]; [reflexivity |].
      destruct Hbin as [-> | Hbin]; [reflexivity |]. exfalso.
      rewrite Forall_forall in Ha, Hb.
      apply (key_lt_irrefl a). eapply key_lt_trans; [apply Ha, Hbin | apply Hb, Hain]. }
    subst b. f_equal. apply IH; auto. eapply Permutation_cons_inv; exact Hp.
Qed.

(** X28.  The feature vector of a pose does not depend on the order in
    which its landmarks were inserted into the dictionary: two poses with the
    same entries under distinct names are encoded alike. *)
Theorem features_order_independent (p1 p2 : Pose) :
  NoDup (map fst (landmarks p1)) ->
  Permutation (landmarks p1) (landmarks p2) ->
  pose_features p1 = pose_features p2.
Proof.
  intros Hnd Hp. unfold pose_features.
  assert (Hnd2 : NoDup (map fst (landmarks p2)))
    by (eapply Permutation_NoDup; [apply Permutation_map; exact Hp | exact Hnd]).
  assert (Hs : sorted_items (landmarks p1) = sorted_items (landmarks p2)).
  { apply sorted_unique; try now apply sorted_items_sorted.
    rewrite !sorted_items_perm. exact Hp. }
  now rewrite Hs.
Qed.

Lemma features_order_independent_witness :
  pose_features
    {| landmarks := [("nose", {| lm_x := 1; lm_y := 2; lm_z := 0; lm_visibility := 1 |});
                     ("left_eye", {| lm_x := 3; lm_y := 4; lm_z := 0; lm_visibility := 1 |})];
       angles := [] |}
  = pose_features
    {| landmarks := [("left_eye", {| lm_x := 3; lm_y := 4; lm_z := 0; lm_visibility := 1 |});
                     ("nose", {| lm_x := 1; lm_y := 2; lm_z := 0; lm_visibility := 1 |})];
       angles := [] |}.
Proof.
  apply features_order_independent; cbn [landmarks map fst].
  - constructor; [intros [H | []]; discriminate |]. constructor; [intros [] | constructor].
  - apply perm_swap.
Defined.

(** X29.  The encoder returns one vector per frame, every vector has
    exactly 66 components whatever landmarks the frame holds, and an absent
    frame is encoded as the zero vector. *)
Theorem features_shape (ps : list (option Pose)) (focus_areas : option (list string)) :
  length (_poses_to_features ps focus_areas) = length ps /\
  Forall (fun u => length u = 66%nat) (_poses_to_features ps focus_areas) /\
  forall i, nth_error ps i = Some None ->
            nth_error (_poses_to_features ps focus_areas) i = Some (repeat 0 66).
Proof.
  split; [apply poses_to_features_count |]. split; [apply poses_to_features_length |].
  intros i Hi. unfold _poses_to_features. now rewrite nth_error_map, Hi.
Qed.

(** ** The overall score *)

(** [round_half_even] gives the nearest integer, the even one at a tie. *)
Lemma round_half_even_nearest r :
  Rabs (IZR (round_half_even r) - r) <= 1 / 2 /\
  (Rabs (IZR (round_half_even r) - r) = 1 / 2 -> Z.even (round_half_even r) = true).
Proof.
  unfold round_half_even. destruct (base_Int_part r) as (H1 & H2).
  set (f := Int_part r) in *.
  destruct (Rlt_dec (r - IZR f) (1 / 2)) as [Hlt | Hge].
  - replace (Rltb (r - IZR f) (1 / 2)) with true by (symmetry; now apply Rltb_true).
    rewrite Rabs_left1 by lra. split; [lra | intros E; lra].
  - replace (Rltb (r - IZR f) (1 / 2)) with false by (symmetry; apply Rltb_false; lra).
    destruct (Rlt_dec (1 / 2) (r - IZR f)) as [Hgt | Hle].
    + replace (Rltb (1 / 2) (r - IZR f)) with true by (symmetry; now apply Rltb_true).
      rewrite plus_IZR. rewrite Rabs_right by lra. split; [lra | intros E; lra].
    + replace (Rltb (1 / 2) (r - IZR f)) with false
        by (symmetry; apply Rltb_false; lra).
      destruct (Z.even f) eqn:Ef.
      * rewrite Rabs_left1 by lra. split; [lra | intros _; exact Ef].
      * rewrite plus_IZR. rewrite Rabs_right by lra. split; [lra |].
        intros _. change (f + 1)%Z with (Z.succ f).
        now rewrite Z.even_succ, <- Z.negb_even, Ef.
Qed.

Lemma py_round1_rounded x :
  exists o, py_round1 (Fin x) = Fin o /\ rounded_to_one_decimal x o.
Proof.
  cbn [py_round1]. eexists. split; [reflexivity |].
  exists (round_half_even (x * 10)).
  destruct (round_half_even_nearest (x * 10)) as (Hn & He).
  set (z := round_half_even (x * 10)) in *.
  assert (Hd : IZR z / 10 - x = (IZR z - x * 10) / 10) by field.
  assert (Ha : Rabs (IZR z / 10 - x) = Rabs (IZR z - x * 10) / 10).
  { rewrite Hd. unfold Rdiv. rewrite Rabs_mult, (Rabs_right (/ 10)) by lra.
    reflexivity. }
  split; [reflexivity |]. rewrite Ha. split; [lra |]. intros E. apply He. lra.
Qed.

(** C3.  When both cleaned sequences are non-empty, [compare_videos]
    returns a report; the four values of the scorer and of the movement
    analysis are finite, and the report's [overall_similarity] is
    [(0.40 pose_similarity + 0.25 timing_similarity + 0.20 angle_similarity
      + 0.15 smoothness_score) * 100] rounded to one decimal place. *)
Theorem overall_similarity_weighted (example_pose_data assignment_pose_data : PoseData)
    (focus_areas : option (list string)) :
  filter_present (poses example_pose_data) <> [] ->
  filter_present (poses assignment_pose_data) <> [] ->
  let ex_f := _poses_to_features (filter_present (poses example_pose_data)) focus_areas in
  let as_f := _poses_to_features (filter_present (poses assignment_pose_data)) focus_areas in
  let al := _dtw_align ex_f as_f in
  let mv := _analyze_movement_quality (filter_present (poses example_pose_data))
              (filter_present (poses assignment_pose_data)) al in
  exists rep sims p t a s o,
    compare_videos example_pose_data assignment_pose_data focus_areas
    = Ok (FullReport rep) /\
    _calculate_similarities ex_f as_f al (timestamps example_pose_data)
      (timestamps assignment_pose_data) = Ok sims /\
    pose_similarity sims = Fin p /\ timing_similarity sims = Fin t /\
    angle_similarity sims = Fin a /\ smoothness_score mv = Fin s /\
    overall_similarity rep = Fin o /\
    rounded_to_one_decimal ((0.40 * p + 0.25 * t + 0.20 * a + 0.15 * s) * 100) o.
Proof.
  intros H1 H2 ex_f as_f al mv.
  destruct (compare_videos_report example_pose_data assignment_pose_data focus_areas
              H1 H2) as (sims & fb & Hsims & _ & Hrep).
  fold ex_f as_f al mv in Hsims, Hrep.
  destruct (scorer_bounds _ _ _ _ _ _ Hsims) as (_ & (a & Ha & _) & Hp & Ht).
  assert (Hp' : in_unit (pose_similarity sims)).
  { destruct Hp as [(He & _) | Hp]; [| exact Hp]. exfalso.
    revert He. apply dtw_align_path_nonempty; now apply features_nonempty. }
  destruct Hp' as (p & Hp' & _).
  destruct (alignment_quality_unit ex_f as_f) as (t & Hq & _). fold al in Hq.
  rewrite Hq in Ht.
  destruct (smoothness_score_unit (filter_present (poses example_pose_data))
              (filter_present (poses assignment_pose_data)) al) as (s & Hs & _).
  fold mv in Hs.
  destruct (py_round1_rounded ((0.40 * p + 0.25 * t + 0.20 * a + 0.15 * s) * 100))
    as (o & Ho & Hr).
  eexists. exists sims, p, t, a, s, o. split; [exact Hrep |]. split; [exact Hsims |].
  repeat (split; [assumption |]). split; [| exact Hr].
  cbn [overall_similarity]. unfold percent, _calculate_overall_score.
  rewrite Hp', Ht, Ha, Hs. cbn [fmul fadd]. rewrite <- Ho. do 2 f_equal. lra.
Qed.

Lemma overall_similarity_weighted_witness :
  filter_present (poses single_data) <> [] /\
  exists rep o x,
    compare_videos single_data single_data None = Ok (FullReport rep) /\
    overall_similarity rep = Fin o /\ rounded_to_one_decimal x o.
Proof.
  assert (H : filter_present (poses single_data) <> []) by discriminate.
  split; [exact H |].
  destruct (overall_similarity_weighted single_data single_data None H H)
    as (rep & sims & p & t & a & s & o & Hrep & _ & _ & _ & _ & _ & Ho & Hr).
  exists rep, o, ((0.40 * p + 0.25 * t + 0.20 * a + 0.15 * s) * 100). auto.
Defined.
